(** * CoinGecko API client: request building and response normalisation

    A shallow embedding of [lib/CoinGecko.js]: the endpoint methods, the
    request-option builder [_buildRequestOptions] and the HTTPS invocation
    [_request], together with the parts of the JavaScript runtime they rely
    on (values and objects by reference, [Array.prototype.join], Node's
    [querystring.stringify], [JSON.parse], promise settlement).

    Conventions.
    - A JavaScript string is a Rocq [string] holding its UTF-8 bytes; Node's
      escaping works on exactly these bytes.  Strings with lone surrogates
      have no such form and are outside the model.
    - A JavaScript number is a safe integer (at most 2^53 - 1 in
      magnitude, where every integer is a number of its own and prints in
      plain decimal), [NaN] or an infinity.  Fractions and larger numbers,
      whose printed form is the shortest decimal that reads back as the
      same double, are outside the model.
    - An object is a reference into a heap; the heap maps the reference to
      the object's own enumerable properties, listed in the order in which
      [Object.keys] enumerates them. *)

From Stdlib Require Import ZArith Ascii String List Bool Lia DecimalString.
From stdpp Require Import base option list gmap strings.

Set Warnings "-register-all".
Local Open Scope string_scope.
Local Open Scope Z_scope.

(** ** JavaScript values *)

Definition loc := positive.

(** [Number.MAX_SAFE_INTEGER] *)
Definition MAX_SAFE_INTEGER : Z := 9007199254740991.

Definition is_safe_integer (n : Z) : bool := Z.abs n <=? MAX_SAFE_INTEGER.

Inductive number : Type :=
| Integer (n : Z) (safe : is_safe_integer n = true)
| NaN
| Infinity (negative : bool).

Inductive value : Type :=
| VUndefined
| VNull
| VBool (b : bool)
| VNumber (x : number)
| VStr (s : string)
| VArr (elems : list value)
| VObj (l : loc).

(** The number written as the integer literal [n]. *)
Notation "'VNum' n" := (VNumber (Integer n (@eq_refl bool true)))
  (at level 10, n at level 9).

(** Own enumerable properties of an object, in enumeration order. *)
Definition props := list (string * value).

Fixpoint lookup_prop (k : string) (o : props) : option value :=
  match o with
  | [] => None
  | (k', v) :: o' => if String.eqb k k' then Some v else lookup_prop k o'
  end.

(** [o[k] = v]: an existing property keeps its place, a new one goes
    last, as it does in the enumeration for a key that is no array index;
    the client assigns [vs_currency], [ids] and [days]. *)
Fixpoint assign_prop (k : string) (v : value) (o : props) : props :=
  match o with
  | [] => [(k, v)]
  | (k', v') :: o' =>
      if String.eqb k k' then (k', v) :: o' else (k', v') :: assign_prop k v o'
  end.

(** [o[k]] on an object: a missing property reads as [undefined]. *)
Definition read_prop (k : string) (o : props) : value :=
  default VUndefined (lookup_prop k o).

(** The global [isFinite(x)] on a number. *)
Definition isFinite (x : number) : bool :=
  match x with Integer _ _ => true | _ => false end.

(** [Number::toString] on the modelled numbers. *)
Definition number_to_string (x : number) : string :=
  match x with
  | Integer n _ => NilZero.string_of_int (Z.to_int n)
  | NaN => "NaN"
  | Infinity negative => if negative then "-Infinity" else "Infinity"
  end.

(** [ToString] on the modelled values; an array prints as its elements
    joined with commas, [null] and [undefined] elements printing empty. *)
Fixpoint to_string (v : value) : string :=
  match v with
  | VUndefined => "undefined"
  | VNull => "null"
  | VBool b => if b then "true" else "false"
  | VNumber x => number_to_string x
  | VStr s => s
  | VArr elems =>
      String.concat ","
        (map (fun e => match e with
                       | VUndefined | VNull => ""
                       | _ => to_string e
                       end) elems)
  | VObj _ => "[object Object]"
  end.

Definition join_element (e : value) : string :=
  match e with
  | VUndefined | VNull => ""
  | _ => to_string e
  end.

(** [Array.prototype.join(sep)]. *)
Definition Array_join (elems : list value) (sep : string) : string :=
  String.concat sep (map join_element elems).

(** [String.prototype.toUpperCase] on ASCII text: the letters [a] to [z]
    go to upper case, every other byte is kept.  Every endpoint passes the
    method ['GET']; a method name with cased characters outside ASCII is
    outside the model. *)
Fixpoint toUpperCase (s : string) : string :=
  match s with
  | EmptyString => EmptyString
  | String c r =>
      let n := nat_of_ascii c in
      String (if (97 <=? n)%nat && (n <=? 122)%nat
              then ascii_of_nat (n - 32) else c)
             (toUpperCase r)
  end.

(** [String.prototype.startsWith]. *)
Definition startsWith (s marker : string) : bool := String.prefix marker s.

(** ** The helpers of [./helpers] *)

Module Utils.

(** Modelled from the spec: [Utils.isString] of helpers/utilities, which
    is not part of the sources at hand; the spec speaks of a parameter
    that is "not-a-string". *)
Definition isString (v : value) : bool :=
  match v with VStr _ => true | _ => false end.

(** Modelled from the spec: [Utils.isStringEmpty] of helpers/utilities;
    a string "greater than 0 characters" is the non-empty one. *)
Definition isStringEmpty (v : value) : bool :=
  match v with VStr s => String.eqb s "" | _ => false end.

(** Modelled from the spec: [Utils.isArray] of helpers/utilities; the
    parameter "given as a sequence rather than a string". *)
Definition isArray (v : value) : bool :=
  match v with VArr _ => true | _ => false end.

(** Modelled from the spec: [Utils.isObject] of helpers/utilities; the
    "plain key-value mapping", as opposed to absent values, scalars and
    sequences. *)
Definition isObject (v : value) : bool :=
  match v with VObj _ => true | _ => false end.

End Utils.

(** ** Node's [querystring] *)

Module querystring.

(** Characters left alone by [querystring.escape]: letters, digits and
    [- _ . ! ~ * ' ( )]. *)
Definition noEscape (c : ascii) : bool :=
  let n := nat_of_ascii c in
  ((65 <=? n) && (n <=? 90) || (97 <=? n) && (n <=? 122)
   || (48 <=? n) && (n <=? 57)
   || (n =? 45) || (n =? 95) || (n =? 46) || (n =? 33) || (n =? 126)
   || (n =? 42) || (n =? 39) || (n =? 40) || (n =? 41))%nat.

Definition hexDigit (n : nat) : ascii :=
  nth n (list_ascii_of_string "0123456789ABCDEF") "0"%char.

(** [hexTable[c]]: [%XX] with upper-case digits. *)
Definition hexTable (c : ascii) : string :=
  let n := nat_of_ascii c in
  String "%" (String (hexDigit (n / 16)) (String (hexDigit (n mod 16)) "")).

(** [querystring.escape] on a string, byte by byte. *)
Fixpoint escape (s : string) : string :=
  match s with
  | EmptyString => EmptyString
  | String c r =>
      if noEscape c then String c (escape r) else hexTable c +:+ escape r
  end.

(** [Math.abs(x) < 1e21], for a finite [x]. *)
Definition below_1e21 (x : number) : bool :=
  match x with
  | Integer n _ => Z.abs n <? 10 ^ 21
  | _ => false
  end.

(** [encodeStringified(v, encode)] for the default [encode]: a string is
    escaped; a finite number prints as it is, escaped from [1e21] on,
    where its exponent has a plus sign; a boolean prints as it is;
    anything else, [NaN] and the infinities too, is coerced to the empty
    string. *)
Definition encodeStringified (v : value) : string :=
  match v with
  | VStr s => if String.eqb s "" then "" else escape s
  | VNumber x =>
      if isFinite x
      then (if below_1e21 x then number_to_string x else escape (number_to_string x))
      else ""
  | VBool b => if b then "true" else "false"
  | _ => ""
  end.

(** The inner loop over an array value: [ks] before every element, the
    separator between two elements. *)
Fixpoint stringify_array (ks : string) (first : bool) (elems : list value)
    (fields : string) : string :=
  match elems with
  | [] => fields
  | e :: elems' =>
      let fields := if first then fields else fields +:+ "&" in
      stringify_array ks false elems' (fields +:+ ks +:+ encodeStringified e)
  end.

(** One turn of the loop over the keys of [stringify]. *)
Definition stringify_step (fields : string) (kv : string * value) : string :=
  let '(k, v) := kv in
  let ks := encodeStringified (VStr k) +:+ "=" in
  match v with
  | VArr [] => fields
  | VArr elems =>
      let fields := if String.eqb fields "" then fields else fields +:+ "&" in
      stringify_array ks true elems fields
  | _ =>
      let fields := if String.eqb fields "" then fields else fields +:+ "&" in
      fields +:+ ks +:+ encodeStringified v
  end.

(** [querystring.stringify(obj)] with the default separator, assignment
    sign and escaping, for [obj] an object with properties [o]. *)
Definition stringify (o : props) : string :=
  fold_left stringify_step o "".

(** The [key=value] tokens the serialisation is made of. *)
Definition field (k : string) (v : value) : string :=
  escape k +:+ "=" +:+ encodeStringified v.

Definition fields_of (kv : string * value) : list string :=
  match kv.2 with
  | VArr elems => map (field kv.1) elems
  | v => [field kv.1 v]
  end.

Definition tokens (o : props) : list string := flat_map fields_of o.

End querystring.

(** ** [JSON.parse]

    The grammar of JSON texts (ECMA-404), as [JSON.parse] accepts it.  The
    result is kept as a syntax tree: numbers and strings as their lexemes,
    object members in the order of the text. *)

Module JSON.

Inductive json : Type :=
| JNull
| JBool (b : bool)
| JNumber (lexeme : string)
| JString (raw : string)
| JArray (elems : list json)
| JObject (members : list (string * json)).

Definition dquote : ascii := ascii_of_nat 34.
Definition backslash : ascii := ascii_of_nat 92.

Definition is_ws (c : ascii) : bool :=
  let n := nat_of_ascii c in
  ((n =? 32) || (n =? 9) || (n =? 10) || (n =? 13))%nat.

Definition is_digit (c : ascii) : bool :=
  let n := nat_of_ascii c in ((48 <=? n) && (n <=? 57))%nat.

Definition is_hex (c : ascii) : bool :=
  let n := nat_of_ascii c in
  ((48 <=? n) && (n <=? 57) || (65 <=? n) && (n <=? 70)
   || (97 <=? n) && (n <=? 102))%nat.

Fixpoint skip_ws (s : string) : string :=
  match s with
  | String c r => if is_ws c then skip_ws r else s
  | EmptyString => s
  end.

(** The longest run of digits at the head of [s], and what follows. *)
Fixpoint digits (s : string) : string * string :=
  match s with
  | String c r =>
      if is_digit c then let '(d, r') := digits r in (String c d, r')
      else (EmptyString, s)
  | EmptyString => (EmptyString, s)
  end.

(** [s] without its first character, when that is [c]. *)
Definition head_is (c : ascii) (s : string) : option string :=
  match s with
  | String c' r => if Ascii.eqb c' c then Some r else None
  | EmptyString => None
  end.

(** [s] without its prefix [p]. *)
Fixpoint strip_prefix (p s : string) : option string :=
  match p with
  | EmptyString => Some s
  | String a p' =>
      match s with
      | String b s' => if Ascii.eqb a b then strip_prefix p' s' else None
      | EmptyString => None
      end
  end.

(** [int]: a single [0], or a digit run that does not start with [0]. *)
Definition scan_int (s : string) : option (string * string) :=
  match digits s with
  | (EmptyString, _) => None
  | (String c d, r) =>
      if Ascii.eqb c "0" && negb (String.eqb d "") then None
      else Some (String c d, r)
  end.

Definition scan_frac (s : string) : option (string * string) :=
  match head_is "." s with
  | Some r =>
      match digits r with
      | (EmptyString, _) => None
      | (d, r') => Some (String "." d, r')
      end
  | None => Some (EmptyString, s)
  end.

Definition scan_exp (s : string) : option (string * string) :=
  match s with
  | String c r =>
      if Ascii.eqb c "e" || Ascii.eqb c "E" then
        let '(sign, r1) :=
          match r with
          | String c' r' =>
              if Ascii.eqb c' "+" || Ascii.eqb c' "-"
              then (String c' EmptyString, r') else (EmptyString, r)
          | EmptyString => (EmptyString, r)
          end in
        match digits r1 with
        | (EmptyString, _) => None
        | (d, r2) => Some (String c (sign +:+ d), r2)
        end
      else Some (EmptyString, s)
  | EmptyString => Some (EmptyString, s)
  end.

Definition scan_number (s : string) : option (string * string) :=
  let '(sign, s1) :=
    match head_is "-" s with
    | Some r => ("-", r)
    | None => (EmptyString, s)
    end in
  '(i, s2) ← scan_int s1;
  '(f, s3) ← scan_frac s2;
  '(e, s4) ← scan_exp s3;
  Some (sign +:+ i +:+ f +:+ e, s4).

Inductive string_state : Type :=
| InChars
| AfterBackslash
| InUnicode (left : nat).

(** The characters of a string literal after its opening quote, up to
    the closing one. *)
Fixpoint scan_string (st : string_state) (s : string)
    : option (string * string) :=
  match s with
  | EmptyString => None
  | String c r =>
      let keep st' := '(raw, rest) ← scan_string st' r; Some (String c raw, rest) in
      match st with
      | InChars =>
          if Ascii.eqb c dquote then Some (EmptyString, r)
          else if Ascii.eqb c backslash then keep AfterBackslash
          else if (nat_of_ascii c <? 32)%nat then None
          else keep InChars
      | AfterBackslash =>
          if Ascii.eqb c dquote || Ascii.eqb c backslash || Ascii.eqb c "/"
             || Ascii.eqb c "b" || Ascii.eqb c "f" || Ascii.eqb c "n"
             || Ascii.eqb c "r" || Ascii.eqb c "t"
          then keep InChars
          else if Ascii.eqb c "u" then keep (InUnicode 4)
          else None
      | InUnicode n =>
          if is_hex c
          then keep (match n with
                     | S (S n') => InUnicode (S n')
                     | _ => InChars
                     end)
          else None
      end
  end.

(** A value, given the parsers for what is nested in it: the elements of
    an array and the members of an object. *)
Definition value_body
    (elements : string → option (list json * string))
    (members : string → option (list (string * json) * string))
    (s : string) : option (json * string) :=
  match skip_ws s with
  | EmptyString => None
  | String c r as s' =>
      if Ascii.eqb c "{" then
        match head_is "}" (skip_ws r) with
        | Some r' => Some (JObject [], r')
        | None => '(ms, r') ← members r; Some (JObject ms, r')
        end
      else if Ascii.eqb c "[" then
        match head_is "]" (skip_ws r) with
        | Some r' => Some (JArray [], r')
        | None => '(vs, r') ← elements r; Some (JArray vs, r')
        end
      else if Ascii.eqb c dquote then
        '(raw, r') ← scan_string InChars r; Some (JString raw, r')
      else if Ascii.eqb c "t" then
        r' ← strip_prefix "true" s'; Some (JBool true, r')
      else if Ascii.eqb c "f" then
        r' ← strip_prefix "false" s'; Some (JBool false, r')
      else if Ascii.eqb c "n" then
        r' ← strip_prefix "null" s'; Some (JNull, r')
      else
        '(lexeme, r') ← scan_number s'; Some (JNumber lexeme, r')
  end.

(** The elements of an array after its opening bracket, up to the
    closing one. *)
Definition elements_body
    (value : string → option (json * string))
    (elements : string → option (list json * string))
    (s : string) : option (list json * string) :=
  '(v, r) ← value s;
  match head_is "," (skip_ws r) with
  | Some r' => '(vs, r'') ← elements r'; Some (v :: vs, r'')
  | None =>
      match head_is "]" (skip_ws r) with
      | Some r' => Some ([v], r')
      | None => None
      end
  end.

(** The members of an object after its opening brace, up to the closing
    one. *)
Definition members_body
    (value : string → option (json * string))
    (members : string → option (list (string * json) * string))
    (s : string) : option (list (string * json) * string) :=
  r ← head_is dquote (skip_ws s);
  '(k, r1) ← scan_string InChars r;
  r2 ← head_is ":" (skip_ws r1);
  '(v, r3) ← value r2;
  match head_is "," (skip_ws r3) with
  | Some r4 => '(ms, r5) ← members r4; Some ((k, v) :: ms, r5)
  | None =>
      match head_is "}" (skip_ws r3) with
      | Some r4 => Some ([(k, v)], r4)
      | None => None
      end
  end.

Fixpoint parse_value (fuel : nat) (s : string) : option (json * string) :=
  match fuel with
  | O => None
  | S fuel => value_body (parse_elements fuel) (parse_members fuel) s
  end
with parse_elements (fuel : nat) (s : string) : option (list json * string) :=
  match fuel with
  | O => None
  | S fuel => elements_body (parse_value fuel) (parse_elements fuel) s
  end
with parse_members (fuel : nat) (s : string)
    : option (list (string * json) * string) :=
  match fuel with
  | O => None
  | S fuel => members_body (parse_value fuel) (parse_members fuel) s
  end.

(** [JSON.parse(text)]; [None] stands for the [SyntaxError].  The fuel
    bounds the depth of the calls; twice the length of the text is
    enough, see [parse_value_fuel]. *)
Definition parse (text : string) : option json :=
  match parse_value (2 * String.length text + 2) text with
  | Some (v, r) => if String.eqb (skip_ws r) "" then Some v else None
  | None => None
  end.

(** A string literal with its quotes. *)
Definition quoted (s : string) : string :=
  String dquote (s +:+ String dquote EmptyString).

End JSON.

(** ** Errors, results and the state the client runs in *)

Inductive Error : Type :=
| Warning (title detail : string)
| SyntaxError (text : string)
| TypeError (what : string)
| TransportError (what : string).

(** The kinds of error the client itself raises: a parameter that is
    invalid or missing, and a request the server answers with a page. *)
Definition is_parameter_error (e : Error) : bool :=
  match e with
  | Warning title _ =>
      String.eqb title "Invalid parameter" || String.eqb title "Missing parameter"
  | _ => false
  end.

Definition is_invalid_request (e : Error) : bool :=
  match e with
  | Warning title _ => String.eqb title "Invalid request"
  | _ => false
  end.

(** What [body] holds when the envelope is built: the parsed payload, or
    still the decoded text when the [try] block was left early. *)
Inductive payload : Type :=
| Parsed (j : JSON.json)
| Text (s : string).

Record Envelope : Type := {
  success : bool;
  message : string;
  code : Z;
  data : payload;
}.

(** Modelled from the spec: [ReturnObject] of helpers/ReturnObject, which is
    not part of the sources at hand; the envelope
    [{success, message, code, data}] of its four arguments. *)
Definition ReturnObject (success : bool) (message : string) (code : Z)
    (data : payload) : Envelope :=
  {| success := success; message := message; code := code; data := data |}.

Record RequestOptions : Type := {
  path : string;
  method : string;
  host : string;
  port : Z;
}.

(** A response: its status line and the chunks of its body. *)
Record Response : Type := {
  statusCode : Z;
  statusMessage : string;
  chunks : list string;
}.

(** What the HTTPS stack reports for one request: an ['error'] event, a
    response that ends after its chunks, or nothing at all. *)
Inductive Outcome : Type :=
| Failed (error : Error)
| Answered (res : Response)
| Silent.

Inductive Promise : Type :=
| Pending
| Fulfilled (result : Envelope)
| Rejected (reason : Error).

(** [resolve] and [reject] settle a pending promise and do nothing to a
    settled one. *)
Definition resolve (result : Envelope) (p : Promise) : Promise :=
  match p with Pending => Fulfilled result | _ => p end.

Definition reject (reason : Error) (p : Promise) : Promise :=
  match p with Pending => Rejected reason | _ => p end.

(** The heap of objects, the requests handed to [https.request] so far and
    the texts handed to [JSON.parse] so far. *)
Record World : Type := {
  heap : gmap loc props;
  sent : list RequestOptions;
  parsed : list string;
}.

Inductive completion (A : Type) : Type :=
| Normal (a : A)
| Throw (e : Error).
Arguments Normal {A} a.
Arguments Throw {A} e.

Definition JS (A : Type) : Type := World → completion A * World.

#[global] Instance JS_ret : MRet JS := λ A a w, (Normal a, w).

#[global] Instance JS_bind : MBind JS := λ A B f m w,
  match m w with
  | (Normal a, w') => f a w'
  | (Throw e, w') => (Throw e, w')
  end.

Definition throw {A : Type} (e : Error) : JS A := λ w, (Throw e, w).

(** [try { block } catch (error) { handler }]. *)
Definition try_catch {A : Type} (block : JS A) (handler : Error → JS A) : JS A :=
  λ w, match block w with
       | (Normal a, w') => (Normal a, w')
       | (Throw e, w') => handler e w'
       end.

(** [if (c) stmt;] *)
Definition when (c : bool) (stmt : JS unit) : JS unit :=
  if c then stmt else mret ().

(** The body of an [async] function: a completion by [throw] becomes the
    rejection of the returned promise, and a returned promise is the
    function's own result. *)
Definition async (body : JS Promise) : JS Promise :=
  try_catch body (λ e, mret (Rejected e)).

Definition object_at (w : World) (l : loc) : props := default [] (heap w !! l).

(** [v[k]], for the property names this client reads (none of them a
    built-in property of a string, number, boolean or array). *)
Definition get (v : value) (k : string) : JS value :=
  match v with
  | VObj l => λ w, (Normal (read_prop k (object_at w l)), w)
  | VUndefined | VNull => throw (TypeError "Cannot read properties of undefined or null")
  | _ => mret VUndefined
  end.

(** [v[k] = x] in strict mode.  The write goes through the reference, so
    every holder of the object sees it.  A named property put on an array
    is not kept: the client writes behind [Utils.isObject] only. *)
Definition set (v : value) (k : string) (x : value) : JS unit :=
  match v with
  | VObj l => λ w,
      (Normal (),
       {| heap := <[l := assign_prop k x (object_at w l)]> (heap w);
          sent := sent w; parsed := parsed w |})
  | VUndefined | VNull => throw (TypeError "Cannot set properties of undefined or null")
  | VArr _ => mret ()
  | _ => throw (TypeError "Cannot create property on a primitive")
  end.

(** [v == undefined] *)
Definition eq_undefined (v : value) : bool :=
  match v with VUndefined | VNull => true | _ => false end.

(** [v.join(sep)] *)
Definition call_join (v : value) (sep : string) : JS value :=
  match v with
  | VArr elems => mret (VStr (Array_join elems sep))
  | VUndefined | VNull => throw (TypeError "Cannot read properties of undefined or null")
  | _ => throw (TypeError "join is not a function")
  end.

(** [querystring.stringify(v)]: the serialised properties of an object,
    the empty string for what is not one.  The client calls it behind
    [Utils.isObject] only, so an array never gets here. *)
Definition querystring_stringify (v : value) : JS string :=
  match v with
  | VObj l => λ w, (Normal (querystring.stringify (object_at w l)), w)
  | _ => mret ""
  end.

(** [JSON.parse(text)], recording the attempt. *)
Definition JSON_parse (text : string) : JS JSON.json := λ w,
  let w' := {| heap := heap w; sent := sent w; parsed := parsed w ++ [text] |} in
  match JSON.parse text with
  | Some j => (Normal j, w')
  | None => (Throw (SyntaxError text), w')
  end.

(** [Buffer.concat(chunks).toString()] *)
Definition Buffer_concat_toString (chunks : list string) : string :=
  String.concat "" chunks.

(** Modelled from the spec: [Utils._WARN_] of helpers/utilities, which is
    not part of the sources at hand; by the spec a violation "raises" an
    error of the named kind, so the call completes by [throw]. *)
Definition _WARN_ (title detail : string) : JS unit :=
  throw (Warning title detail).

(** ** The class [CoinGecko] *)

Section CoinGecko.

(** [Constants.API_VERSION] (as it prints in a template literal) and
    [Constants.HOST] of helpers/constants. *)
Variable API_VERSION : string.
Variable HOST : string.

(** The remote side: what comes back for a request. *)
Variable remote : RequestOptions → Outcome.

Definition _buildRequestOptions (method path : string) (params : value)
    : JS RequestOptions :=
  let method := toUpperCase method in
  params ← (if Utils.isObject params
            then q ← querystring_stringify params; mret (VStr q)
            else mret VUndefined);
  let path :=
    if eq_undefined params then "/api/v" +:+ API_VERSION +:+ path
    else "/api/v" +:+ API_VERSION +:+ path +:+ "?" +:+ to_string params in
  let options := {| path := path; method := method; host := HOST; port := 443 |} in
  mret options.

(** [https.request(options, callback)]: the request is handed to the
    HTTPS stack. *)
Definition https_request (options : RequestOptions) : JS unit := λ w,
  (Normal (),
   {| heap := heap w; sent := sent w ++ [options]; parsed := parsed w |}).

(** The ['end'] handler of the response, run on the promise [p]. *)
Definition on_end (res : Response) (p : Promise) : JS Promise :=
  let text := Buffer_concat_toString (chunks res) in
  '(body, p) ← try_catch
      (when (startsWith text "<!DOCTYPE html>")
         (_WARN_ "Invalid request"
            "There was a problem with your request. The parameter(s) you gave are missing or incorrect.");;
       j ← JSON_parse text;
       mret (Parsed j, p))
      (λ error, mret (Text text, reject error p));
  mret (resolve
          (ReturnObject
             (negb ((statusCode res <? 200) || (statusCode res >=? 300)))
             (statusMessage res)
             (statusCode res)
             body)
          p).

(** [new Promise((resolve, reject) => ...)]: the executor hands the
    request over; the promise is settled later, by the ['end'] handler of
    the response or by the ['error'] handler of the request. *)
Definition _request (options : RequestOptions) : JS Promise :=
  https_request options;;
  match remote options with
  | Answered res => on_end res Pending
  | Failed error => mret (reject error Pending)
  | Silent => mret Pending
  end.

Definition ping : JS Promise :=
  async (
    let method := "GET" in
    let path := "/ping" in
    options ← _buildRequestOptions method path VUndefined;
    _request options).

Definition global : JS Promise :=
  async (
    let method := "GET" in
    let path := "/global" in
    options ← _buildRequestOptions method path VUndefined;
    _request options).

(** *** [coins] *)

Definition coins_pathPrefix : string := "coins".

Definition coins_all (params : value) : JS Promise :=
  async (
    let method := "GET" in
    let path := "/" +:+ coins_pathPrefix in
    options ← _buildRequestOptions method path params;
    _request options).

Definition coins_list : JS Promise :=
  async (
    let method := "GET" in
    let path := "/" +:+ coins_pathPrefix +:+ "/list" in
    options ← _buildRequestOptions method path VUndefined;
    _request options).

Definition coins_markets (params : value) : JS Promise :=
  async (
    let method := "GET" in
    let path := "/" +:+ coins_pathPrefix +:+ "/markets" in
    when (negb (Utils.isObject params))
      (_WARN_ "Invalid parameter" "params must be of type: Object");;
    vs_currency ← get params "vs_currency";
    when (negb (Utils.isString vs_currency) || Utils.isStringEmpty vs_currency)
      (set params "vs_currency" (VStr "usd"));;
    ids ← get params "ids";
    when (Utils.isArray ids)
      (ids ← get params "ids";
       joined ← call_join ids ",";
       set params "ids" joined);;
    options ← _buildRequestOptions method path params;
    _request options).

(** The guard that opens every method taking a [coinId]. *)
Definition check_coinId (coinId : value) : JS unit :=
  when (negb (Utils.isString coinId) || Utils.isStringEmpty coinId)
    (_WARN_ "Invalid parameter"
       "coinId must be of type: String and greater than 0 characters.").

Definition coins_fetch (coinId params : value) : JS Promise :=
  async (
    check_coinId coinId;;
    let method := "GET" in
    let path := "/" +:+ coins_pathPrefix +:+ "/" +:+ to_string coinId in
    options ← _buildRequestOptions method path params;
    _request options).

Definition coins_fetchTickers (coinId params : value) : JS Promise :=
  async (
    check_coinId coinId;;
    let method := "GET" in
    let path := "/" +:+ coins_pathPrefix +:+ "/" +:+ to_string coinId +:+ "/tickers" in
    options ← _buildRequestOptions method path params;
    _request options).

Definition coins_fetchHistory (coinId params : value) : JS Promise :=
  async (
    check_coinId coinId;;
    when (negb (Utils.isObject params))
      (_WARN_ "Invalid parameter" "params must be of type: Object");;
    date ← get params "date";
    when (negb (Utils.isString date) || Utils.isStringEmpty date)
      (_WARN_ "Missing parameter"
         "params must include `date` and be a string in format: `dd-mm-yyyy`");;
    let method := "GET" in
    let path := "/" +:+ coins_pathPrefix +:+ "/" +:+ to_string coinId +:+ "/history" in
    options ← _buildRequestOptions method path params;
    _request options).

Definition coins_fetchMarketChart (coinId params : value) : JS Promise :=
  async (
    check_coinId coinId;;
    when (negb (Utils.isObject params))
      (_WARN_ "Invalid parameter" "params must be of type: Object");;
    vs_currency ← get params "vs_currency";
    when (negb (Utils.isString vs_currency) || Utils.isStringEmpty vs_currency)
      (set params "vs_currency" (VStr "usd"));;
    days ← get params "days";
    when (eq_undefined days)
      (set params "days" (VNum 1));;
    let method := "GET" in
    let path := "/" +:+ coins_pathPrefix +:+ "/" +:+ to_string coinId +:+ "/market_chart" in
    options ← _buildRequestOptions method path params;
    _request options).

Definition coins_fetchStatusUpdates (coinId params : value) : JS Promise :=
  async (
    check_coinId coinId;;
    let method := "GET" in
    let path := "/" +:+ coins_pathPrefix +:+ "/" +:+ to_string coinId +:+ "/status_updates" in
    options ← _buildRequestOptions method path params;
    _request options).

(** *** [exchanges] *)

Definition exchanges_pathPrefix : string := "exchanges".

(** The guard that opens every method taking an [exchangeId]. *)
Definition check_exchangeId (exchangeId : value) : JS unit :=
  when (negb (Utils.isString exchangeId) || Utils.isStringEmpty exchangeId)
    (_WARN_ "Invalid parameter"
       "exchangeId must be of type: String and greater than 0 characters.").

Definition exchanges_all : JS Promise :=
  async (
    let method := "GET" in
    let path := "/" +:+ exchanges_pathPrefix in
    options ← _buildRequestOptions method path VUndefined;
    _request options).

Definition exchanges_fetch (exchangeId : value) : JS Promise :=
  async (
    check_exchangeId exchangeId;;
    let method := "GET" in
    let path := "/" +:+ exchanges_pathPrefix +:+ "/" +:+ to_string exchangeId in
    options ← _buildRequestOptions method path VUndefined;
    _request options).

Definition exchanges_fetchTickers (exchangeId params : value) : JS Promise :=
  async (
    check_exchangeId exchangeId;;
    let method := "GET" in
    let path := "/" +:+ exchanges_pathPrefix +:+ "/" +:+ to_string exchangeId +:+ "/tickers" in
    options ← _buildRequestOptions method path params;
    _request options).

Definition exchanges_fetchStatusUpdates (exchangeId params : value) : JS Promise :=
  async (
    check_exchangeId exchangeId;;
    let method := "GET" in
    let path := "/" +:+ exchanges_pathPrefix +:+ "/" +:+ to_string exchangeId +:+ "/status_updates" in
    options ← _buildRequestOptions method path params;
    _request options).

(** *** [statusUpdates], [onChain], [events], [exchangeRates] *)

Definition statusUpdates_all (params : value) : JS Promise :=
  async (
    let method := "GET" in
    let path := "/status_updates" in
    options ← _buildRequestOptions method path params;
    _request options).

Definition onChain_networks (params : value) : JS Promise :=
  async (
    let method := "GET" in
    let path := "/onchain/networks" in
    options ← _buildRequestOptions method path params;
    _request options).

Definition onChain_tokenPrice (network addresses : value) : JS Promise :=
  async (
    let method := "GET" in
    let path := "/onchain/simple/networks/" +:+ to_string network
                +:+ "/token_price/" +:+ to_string addresses in
    options ← _buildRequestOptions method path VUndefined;
    _request options).

Definition onChain_dexes (network params : value) : JS Promise :=
  async (
    let method := "GET" in
    let path := "/onchain/networks/" +:+ to_string network +:+ "/dexes" in
    options ← _buildRequestOptions method path params;
    _request options).

Definition onChain_trendingPools (params : value) : JS Promise :=
  async (
    let method := "GET" in
    let path := "/onchain/networks/trending_pools" in
    options ← _buildRequestOptions method path params;
    _request options).

Definition events_pathPrefix : string := "events".

Definition events_all (params : value) : JS Promise :=
  async (
    let method := "GET" in
    let path := "/" +:+ events_pathPrefix in
    options ← _buildRequestOptions method path params;
    _request options).

Definition events_fetchCountries : JS Promise :=
  async (
    let method := "GET" in
    let path := "/" +:+ events_pathPrefix +:+ "/countries" in
    options ← _buildRequestOptions method path VUndefined;
    _request options).

Definition events_fetchTypes : JS Promise :=
  async (
    let method := "GET" in
    let path := "/" +:+ events_pathPrefix +:+ "/types" in
    options ← _buildRequestOptions method path VUndefined;
    _request options).

Definition exchangeRates_all : JS Promise :=
  async (
    let method := "GET" in
    let path := "/exchange_rates" in
    options ← _buildRequestOptions method path VUndefined;
    _request options).

End CoinGecko.

(** * The vocabulary of the statements *)

(** Every character of a string passes a test. *)
Fixpoint all_chars (test : ascii → bool) (s : string) : bool :=
  match s with
  | EmptyString => true
  | String c r => test c && all_chars test r
  end.

(** Cutting a string at every occurrence of a character. *)
Fixpoint split_on (sep : ascii) (s : string) : list string :=
  match s with
  | EmptyString => [EmptyString]
  | String c r =>
      if Ascii.eqb c sep then EmptyString :: split_on sep r
      else match split_on sep r with
           | t :: ts => String c t :: ts
           | [] => [String c EmptyString]
           end
  end.

Definition free_of (sep : ascii) (s : string) : bool :=
  all_chars (λ c, negb (Ascii.eqb c sep)) s.

(** [concat] in terms of what follows the first piece. *)
Definition amp_all (pieces : list string) : string :=
  String.concat "" (map (λ t, "&" +:+ t) pieces).

(** What [escape] can put out: an unreserved character or a percent
    sign. *)
Definition escaped_char (c : ascii) : bool :=
  querystring.noEscape c || Ascii.eqb c "%".

(** Strings, finite numbers and booleans: the values a parameter mapping
    is meant to hold. *)
Definition is_scalar (v : value) : bool :=
  match v with
  | VStr _ | VBool _ => true
  | VNumber x => isFinite x
  | _ => false
  end.

(** The query string in the words of the specification: every pair of
    the mapping as its percent-encoded key, [=] and its percent-encoded
    value, the pairs joined by [&] in the order of the mapping. *)
Definition claimed_query (o : props) : string :=
  String.concat "&"
    (map (λ kv, querystring.escape kv.1 +:+ "=" +:+ querystring.escape (to_string kv.2))
       o).

(** The value of a pair as the query string has it: percent-encoded for
    a string, a finite number and a boolean, empty for anything else. *)
Definition pair_value (v : value) : string :=
  if is_scalar v then querystring.escape (to_string v) else "".

(** The pairs a property stands for: one for each element of an array
    value, none for the empty array; one for any other value. *)
Definition pairs_of (kv : string * value) : list string :=
  match kv.2 with
  | VArr elems => map (λ e, querystring.escape kv.1 +:+ "=" +:+ pair_value e) elems
  | v => [querystring.escape kv.1 +:+ "=" +:+ pair_value v]
  end.

Definition after_request (w : World) (options : RequestOptions)
    (texts : list string) : World :=
  {| heap := heap w; sent := sent w ++ [options]; parsed := parsed w ++ texts |}.

Definition invalid_request : Error :=
  Warning "Invalid request"
    "There was a problem with your request. The parameter(s) you gave are missing or incorrect.".

(** A usable identifier or parameter: a string of at least one
    character. *)
Definition is_nonempty_string (v : value) : bool :=
  match v with
  | VStr s => negb (String.eqb s "")
  | _ => false
  end.

Definition coinId_error : Error :=
  Warning "Invalid parameter"
    "coinId must be of type: String and greater than 0 characters.".

Definition exchangeId_error : Error :=
  Warning "Invalid parameter"
    "exchangeId must be of type: String and greater than 0 characters.".

Definition params_error : Error :=
  Warning "Invalid parameter" "params must be of type: Object".

Definition date_error : Error :=
  Warning "Missing parameter"
    "params must include `date` and be a string in format: `dd-mm-yyyy`".

(** The entry [k] of a parameter argument: [undefined] when there is no
    such entry, or no mapping to begin with. *)
Definition entry (w : World) (params : value) (k : string) : value :=
  match params with
  | VObj l => read_prop k (object_at w l)
  | _ => VUndefined
  end.

(** The state after a write to the object at [l]. *)
Definition store (l : loc) (o : props) (w : World) : World :=
  {| heap := <[l := o]> (heap w); sent := sent w; parsed := parsed w |}.

(** The state once the currency default is in place. *)
Definition with_currency (l : loc) (w : World) : World :=
  if is_nonempty_string (read_prop "vs_currency" (object_at w l)) then w
  else store l (assign_prop "vs_currency" (VStr "usd") (object_at w l)) w.

(** The state in which [coins.markets] builds its request. *)
Definition markets_world (l : loc) (w : World) : World :=
  let w1 := with_currency l w in
  match read_prop "ids" (object_at w1 l) with
  | VArr elems =>
      store l (assign_prop "ids" (VStr (Array_join elems ",")) (object_at w1 l)) w1
  | _ => w1
  end.

(** The state in which [coins.fetchMarketChart] builds its request. *)
Definition chart_world (l : loc) (w : World) : World :=
  let w1 := with_currency l w in
  if eq_undefined (read_prop "days" (object_at w1 l))
  then store l (assign_prop "days" (VNum 1) (object_at w1 l)) w1
  else w1.

(** The call sends one request, to [base] with a query string, and the
    query string, cut at [&], holds [token]. *)
Definition sends_query_with (call : JS Promise) (w : World)
    (base token : string) : Prop :=
  ∃ promise options query w',
    call w = (Normal promise, w')
    ∧ sent w' = (sent w ++ [options])%list
    ∧ path options = base +:+ "?" +:+ query
    ∧ In token (split_on "&" query).

(** ** The methods of the client, as one type *)

(** A call of one method of the client, with its arguments. *)
Inductive Call : Type :=
| Ping
| Global
| CoinsAll (params : value)
| CoinsList
| CoinsMarkets (params : value)
| CoinsFetch (coinId params : value)
| CoinsFetchTickers (coinId params : value)
| CoinsFetchHistory (coinId params : value)
| CoinsFetchMarketChart (coinId params : value)
| CoinsFetchStatusUpdates (coinId params : value)
| ExchangesAll
| ExchangesFetch (exchangeId : value)
| ExchangesFetchTickers (exchangeId params : value)
| ExchangesFetchStatusUpdates (exchangeId params : value)
| StatusUpdatesAll (params : value)
| OnChainNetworks (params : value)
| OnChainTokenPrice (network addresses : value)
| OnChainDexes (network params : value)
| OnChainTrendingPools (params : value)
| EventsAll (params : value)
| EventsFetchCountries
| EventsFetchTypes
| ExchangeRatesAll.

Definition invoke (API_VERSION HOST : string) (remote : RequestOptions → Outcome)
    (c : Call) : JS Promise :=
  match c with
  | Ping => ping API_VERSION HOST remote
  | Global => global API_VERSION HOST remote
  | CoinsAll params => coins_all API_VERSION HOST remote params
  | CoinsList => coins_list API_VERSION HOST remote
  | CoinsMarkets params => coins_markets API_VERSION HOST remote params
  | CoinsFetch coinId params => coins_fetch API_VERSION HOST remote coinId params
  | CoinsFetchTickers coinId params =>
      coins_fetchTickers API_VERSION HOST remote coinId params
  | CoinsFetchHistory coinId params =>
      coins_fetchHistory API_VERSION HOST remote coinId params
  | CoinsFetchMarketChart coinId params =>
      coins_fetchMarketChart API_VERSION HOST remote coinId params
  | CoinsFetchStatusUpdates coinId params =>
      coins_fetchStatusUpdates API_VERSION HOST remote coinId params
  | ExchangesAll => exchanges_all API_VERSION HOST remote
  | ExchangesFetch exchangeId => exchanges_fetch API_VERSION HOST remote exchangeId
  | ExchangesFetchTickers exchangeId params =>
      exchanges_fetchTickers API_VERSION HOST remote exchangeId params
  | ExchangesFetchStatusUpdates exchangeId params =>
      exchanges_fetchStatusUpdates API_VERSION HOST remote exchangeId params
  | StatusUpdatesAll params => statusUpdates_all API_VERSION HOST remote params
  | OnChainNetworks params => onChain_networks API_VERSION HOST remote params
  | OnChainTokenPrice network addresses =>
      onChain_tokenPrice API_VERSION HOST remote network addresses
  | OnChainDexes network params => onChain_dexes API_VERSION HOST remote network params
  | OnChainTrendingPools params => onChain_trendingPools API_VERSION HOST remote params
  | EventsAll params => events_all API_VERSION HOST remote params
  | EventsFetchCountries => events_fetchCountries API_VERSION HOST remote
  | EventsFetchTypes => events_fetchTypes API_VERSION HOST remote
  | ExchangeRatesAll => exchangeRates_all API_VERSION HOST remote
  end.

(** The two methods that write to their parameter object, and the object
    they write to. *)
Definition written_object (c : Call) : option loc :=
  match c with
  | CoinsMarkets (VObj l) | CoinsFetchMarketChart _ (VObj l) => Some l
  | _ => None
  end.

(** A request as the client builds them: a GET to the API host on port
    443, on a path under the version prefix. *)
Definition well_formed_request (API_VERSION HOST : string)
    (options : RequestOptions) : Prop :=
  method options = "GET" ∧ host options = HOST ∧ port options = 443
  ∧ String.prefix ("/api/v" +:+ API_VERSION +:+ "/") (path options) = true.

(** ** Reading an escaped string back *)

Definition hex_value (c : ascii) : option nat :=
  let n := nat_of_ascii c in
  if (48 <=? n)%nat && (n <=? 57)%nat then Some (n - 48)%nat
  else if (65 <=? n)%nat && (n <=? 70)%nat then Some (n - 55)%nat
  else if (97 <=? n)%nat && (n <=? 102)%nat then Some (n - 87)%nat
  else None.

(** Every [%XX] becomes the byte it stands for; what is no such triple is
    kept. *)
Fixpoint unescape (s : string) : string :=
  match s with
  | EmptyString => EmptyString
  | String c r =>
      if Ascii.eqb c "%" then
        match r with
        | String a (String b r') =>
            match hex_value a, hex_value b with
            | Some x, Some y => String (ascii_of_nat (16 * x + y)) (unescape r')
            | _, _ => String c (unescape r)
            end
        | _ => String c (unescape r)
        end
      else String c (unescape r)
  end.

(** The name and the printed value of each parameter. *)
Definition printed (o : props) : list (string * string) :=
  map (λ kv, (kv.1, to_string kv.2)) o.

(** The characters a query string is made of. *)
Definition query_char (c : ascii) : bool :=
  escaped_char c || Ascii.eqb c "=" || Ascii.eqb c "&".

(** ** A concrete client *)

Module Run.

Definition version : string := "3".
Definition api_host : string := "api.coingecko.com".

(** A state with one object on the heap and nothing sent yet. *)
Definition holding (o : props) : World :=
  {| heap := {[1%positive := o]}; sent := []; parsed := [] |}.

Definition params : value := VObj 1%positive.

Definition get_request (p : string) : RequestOptions :=
  {| path := p; method := "GET"; host := api_host; port := 443 |}.

(** A small JSON object with status 200, an error body with status 404, and an
    HTML page. *)
Definition ok_response : Response :=
  {| statusCode := 200; statusMessage := "OK";
     chunks := ["{" +:+ JSON.quoted "a"; ":1}"] |}.

Definition not_found_response : Response :=
  {| statusCode := 404; statusMessage := "Not Found";
     chunks := ["{" +:+ JSON.quoted "error" +:+ ":" +:+ JSON.quoted "coin not found" +:+ "}"] |}.

Definition html_response : Response :=
  {| statusCode := 403; statusMessage := "Forbidden";
     chunks := ["<!DOCTYPE html>"; "<html><body>Access denied</body></html>"] |}.

Definition answering (res : Response) : RequestOptions → Outcome :=
  λ _, Answered res.

(** Parameter objects a caller might pass. *)
Definition order_only : props := [("order", VStr "market_cap_desc")].

Definition two_ids : props := [("ids", VArr [VStr "bitcoin"; VStr "ethereum"])].

Definition scalars : props :=
  [("vs_currency", VStr "usd"); ("per_page", VNum 10);
   ("sparkline", VBool false); ("order", VStr "market cap/desc&x=1")].

(** The same parameters with the number and the boolean given as
    text. *)
Definition scalars_as_text : props :=
  [("vs_currency", VStr "usd"); ("per_page", VStr "10");
   ("sparkline", VStr "false"); ("order", VStr "market cap/desc&x=1")].

(** Values a parameter mapping is not meant to hold. *)
Definition unusual : props :=
  [("ids", VArr [VStr "bitcoin"; VStr "ethereum"]); ("tags", VArr []);
   ("page", VNull); ("per_page", VNumber NaN)].

Definition markets : JS Promise :=
  coins_markets version api_host (answering ok_response) params.

Definition bitcoin_chart : JS Promise :=
  coins_fetchMarketChart version api_host (answering ok_response) (VStr "bitcoin") params.

(** A state with two objects on the heap. *)
Definition holding_two (o1 o2 : props) : World :=
  {| heap := {[1%positive := o1; 2%positive := o2]}; sent := []; parsed := [] |}.

Definition euro : props := [("vs_currency", VStr "eur"); ("days", VStr "max")].

Definition null_days : props := [("vs_currency", VStr "usd"); ("days", VNull)].

Definition dated : props := [("date", VStr "30-12-2017"); ("localization", VBool false)].

(** The HTML page with a chunk boundary inside the marker, and the page
    in one piece. *)
Definition html_marker_split : Response :=
  {| statusCode := 403; statusMessage := "Forbidden";
     chunks := ["<!DOC"; "TYPE html><html>"; "<body>Access denied</body></html>"] |}.

Definition html_in_one_chunk : Response :=
  {| statusCode := 403; statusMessage := "Forbidden";
     chunks := ["<!DOCTYPE html><html><body>Access denied</body></html>"] |}.

End Run.

Import Run.

(** * Properties *)

(** ** Strings *)

#[local] Arguments String.append !_ _ / : simpl nomatch.

Section Strings.

Lemma append_assoc (a b c : string) : (a +:+ b) +:+ c = a +:+ (b +:+ c).
Proof. induction a as [|x a IH]; [reflexivity | simpl; f_equal; exact IH]. Qed.

Lemma append_empty_r (a : string) : a +:+ "" = a.
Proof. induction a as [|x a IH]; [reflexivity | simpl; f_equal; exact IH]. Qed.

Lemma append_is_empty (a b : string) : a +:+ b = "" → a = "".
Proof. destruct a; simpl; [reflexivity | discriminate]. Qed.

Lemma all_chars_app test a b :
  all_chars test (a +:+ b) = all_chars test a && all_chars test b.
Proof.
  induction a as [|x a IH]; simpl; [reflexivity|].
  rewrite IH. now rewrite andb_assoc.
Qed.

Lemma all_chars_weaken (strong weak : ascii → bool) s :
  (∀ c, strong c = true → weak c = true) →
  all_chars strong s = true → all_chars weak s = true.
Proof.
  intros Himp. induction s as [|c r IH]; simpl; [reflexivity|].
  rewrite !andb_true_iff. intros [Hc Hr]. split; [now apply Himp | now apply IH].
Qed.

Lemma split_on_free sep t : free_of sep t = true → split_on sep t = [t].
Proof.
  unfold free_of. induction t as [|c r IH]; simpl; [reflexivity|].
  rewrite andb_true_iff, negb_true_iff. intros [Hc Hr].
  rewrite Hc, (IH Hr). reflexivity.
Qed.

Lemma split_on_app sep t r :
  free_of sep t = true →
  split_on sep (t +:+ String sep r) = t :: split_on sep r.
Proof.
  unfold free_of. induction t as [|c t IH]; simpl.
  - intros _. now rewrite Ascii.eqb_refl.
  - rewrite andb_true_iff, negb_true_iff. intros [Hc Ht].
    rewrite Hc, (IH Ht). reflexivity.
Qed.

(** Joining with a separator and cutting at it again gives the pieces
    back, as long as no piece holds the separator. *)
Lemma split_on_concat sep (pieces : list string) :
  pieces ≠ [] →
  Forall (λ t, free_of sep t = true) pieces →
  split_on sep (String.concat (String sep "") pieces) = pieces.
Proof.
  induction pieces as [|t [|t' ts] IH]; intros Hne Hfree; [congruence | |].
  - simpl. apply split_on_free. now inversion Hfree.
  - inversion Hfree as [|? ? Ht Hrest]; subst.
    change (String.concat (String sep "") (t :: t' :: ts))
      with (t +:+ String sep (String.concat (String sep "") (t' :: ts))).
    rewrite split_on_app by assumption.
    rewrite IH; [reflexivity | congruence | assumption].
Qed.

Lemma concat_empty_cons t ts :
  String.concat "" (t :: ts) = t +:+ String.concat "" ts.
Proof. destruct ts; simpl; [now rewrite append_empty_r | reflexivity]. Qed.

Lemma amp_all_cons t ts : amp_all (t :: ts) = "&" +:+ t +:+ amp_all ts.
Proof.
  unfold amp_all. rewrite map_cons, concat_empty_cons.
  now rewrite append_assoc.
Qed.

Lemma amp_all_app xs ys : amp_all (xs ++ ys) = amp_all xs +:+ amp_all ys.
Proof.
  induction xs as [|x xs IH]; [reflexivity|].
  rewrite <- app_comm_cons, !amp_all_cons, IH.
  now rewrite !append_assoc.
Qed.

Lemma concat_amp_cons t ts :
  String.concat "&" (t :: ts) = t +:+ amp_all ts.
Proof.
  revert t. induction ts as [|t' ts IH]; intros t.
  - simpl. now rewrite append_empty_r.
  - change (String.concat "&" (t :: t' :: ts))
      with (t +:+ "&" +:+ String.concat "&" (t' :: ts)).
    now rewrite IH, amp_all_cons.
Qed.

End Strings.

(** ** JSON texts *)

Section JsonTexts.

Import JSON.

Lemma skip_ws_length s : (String.length (skip_ws s) ≤ String.length s)%nat.
Proof.
  induction s as [|c r IH]; simpl; [lia|].
  destruct (is_ws c); simpl; lia.
Qed.

Lemma head_is_length c s r :
  head_is c s = Some r → String.length s = S (String.length r).
Proof.
  destruct s as [|c' s']; simpl; [discriminate|].
  destruct (Ascii.eqb c' c); [|discriminate]. now intros [= ->].
Qed.

Lemma strip_prefix_length p s r :
  strip_prefix p s = Some r →
  String.length s = (String.length p + String.length r)%nat.
Proof.
  revert s. induction p as [|a p IH]; intros s; simpl.
  - now intros [= ->].
  - destruct s as [|b s]; [discriminate|].
    destruct (Ascii.eqb a b); [|discriminate].
    intros H. simpl. now rewrite (IH _ H).
Qed.

Lemma digits_length s d r :
  digits s = (d, r) → String.length s = (String.length d + String.length r)%nat.
Proof.
  revert d r. induction s as [|c s IH]; intros d r; simpl.
  - now intros [= <- <-].
  - destruct (is_digit c).
    + destruct (digits s) as [d' r'] eqn:Hd. intros [= <- <-].
      simpl. now rewrite (IH _ _ eq_refl).
    + now intros [= <- <-].
Qed.

Lemma scan_int_length s i r :
  scan_int s = Some (i, r) → (String.length r < String.length s)%nat.
Proof.
  unfold scan_int. destruct (digits s) as [[|c d] r'] eqn:Hd; [discriminate|].
  apply digits_length in Hd. simpl in Hd.
  destruct (_ && _); [discriminate|]. intros [= <- <-]. lia.
Qed.

Lemma scan_frac_length s f r :
  scan_frac s = Some (f, r) → (String.length r ≤ String.length s)%nat.
Proof.
  unfold scan_frac. destruct (head_is "." s) as [r0|] eqn:Hh.
  - apply head_is_length in Hh.
    destruct (digits r0) as [[|c d] r'] eqn:Hd; [discriminate|].
    apply digits_length in Hd. intros [= <- <-]. lia.
  - intros [= <- <-]. lia.
Qed.

Lemma scan_exp_length s e r :
  scan_exp s = Some (e, r) → (String.length r ≤ String.length s)%nat.
Proof.
  unfold scan_exp. destruct s as [|c s]; [intros [= <- <-]; lia|].
  destruct (_ || _); [|intros [= <- <-]; lia].
  destruct s as [|c' s'].
  - simpl. discriminate.
  - destruct (Ascii.eqb c' "+" || Ascii.eqb c' "-");
      match goal with
      | |- context [digits ?x] => destruct (digits x) as [[|c'' d] r2] eqn:Hd
      end; try discriminate;
      apply digits_length in Hd; intros [= <- <-]; simpl in *; lia.
Qed.

Lemma scan_number_length s lexeme r :
  scan_number s = Some (lexeme, r) → (String.length r < String.length s)%nat.
Proof.
  unfold scan_number.
  destruct (match head_is "-" s with Some r0 => ("-", r0) | None => (EmptyString, s) end)
    as [sign s1] eqn:Hsign.
  assert (Hs1 : (String.length s1 ≤ String.length s)%nat).
  { destruct (head_is "-" s) as [r0|] eqn:Hh.
    - apply head_is_length in Hh. injection Hsign as <- <-. lia.
    - injection Hsign as <- <-. lia. }
  destruct (scan_int s1) as [[i s2]|] eqn:Hi; cbn; [|discriminate].
  destruct (scan_frac s2) as [[f s3]|] eqn:Hf; cbn; [|discriminate].
  destruct (scan_exp s3) as [[e s4]|] eqn:He; cbn; [|discriminate].
  apply scan_int_length in Hi. apply scan_frac_length in Hf.
  apply scan_exp_length in He. intros [= <- <-]. lia.
Qed.

Lemma scan_string_length st s raw r :
  scan_string st s = Some (raw, r) → (String.length r < String.length s)%nat.
Proof.
  revert st raw. induction s as [|c s IH]; intros st raw; [discriminate|].
  assert (Hkeep : ∀ st' x, 
    ('(raw0, rest) ← scan_string st' s; Some (String c raw0, rest)) = Some (x, r) →
    (String.length r < String.length (String c s))%nat).
  { intros st' x. destruct (scan_string st' s) as [[raw0 rest]|] eqn:Hs; cbn; [|discriminate].
    intros [= <- <-]. apply IH in Hs. lia. }
  simpl. destruct st.
  - destruct (Ascii.eqb c dquote); [intros [= <- <-]; simpl; lia|].
    destruct (Ascii.eqb c backslash); [apply Hkeep|].
    destruct (_ <? _)%nat; [discriminate | apply Hkeep].
  - destruct (_ || _); [apply Hkeep|].
    destruct (Ascii.eqb c "u"); [apply Hkeep | discriminate].
  - destruct (is_hex c); [apply Hkeep | discriminate].
Qed.


Lemma value_body_inv el mem s v r :
  value_body el mem s = Some (v, r) →
  ((String.length r < String.length s)%nat ∧ ∀ el' mem', value_body el' mem' s = Some (v, r))
  ∨ (∃ s0 vs, (String.length s0 < String.length s)%nat ∧ el s0 = Some (vs, r)
       ∧ ∀ el' mem', el' s0 = Some (vs, r) → value_body el' mem' s = Some (v, r))
  ∨ (∃ s0 ms, (String.length s0 < String.length s)%nat ∧ mem s0 = Some (ms, r)
       ∧ ∀ el' mem', mem' s0 = Some (ms, r) → value_body el' mem' s = Some (v, r)).
Proof.
  unfold value_body. pose proof (skip_ws_length s) as Hws.
  destruct (skip_ws s) as [|c r0] eqn:Hs; [discriminate|]. simpl in Hws.
  destruct (Ascii.eqb c "{") eqn:Hc1.
  { pose proof (skip_ws_length r0) as Hws0.
    destruct (head_is "}" (skip_ws r0)) as [r'|] eqn:Hh.
    - intros [= <- <-]. apply head_is_length in Hh. left. split; [lia | reflexivity].
    - destruct (mem r0) as [[ms r']|] eqn:Hm; cbn; [|discriminate].
      intros [= <- <-]. right. right. exists r0, ms.
      split; [lia|]. split; [exact Hm|]. intros el' mem' ->. reflexivity. }
  destruct (Ascii.eqb c "[") eqn:Hc2.
  { pose proof (skip_ws_length r0) as Hws0.
    destruct (head_is "]" (skip_ws r0)) as [r'|] eqn:Hh.
    - intros [= <- <-]. apply head_is_length in Hh. left. split; [lia | reflexivity].
    - destruct (el r0) as [[vs r']|] eqn:He; cbn; [|discriminate].
      intros [= <- <-]. right. left. exists r0, vs.
      split; [lia|]. split; [exact He|]. intros el' mem' ->. reflexivity. }
  destruct (Ascii.eqb c dquote) eqn:Hc3.
  { destruct (scan_string InChars r0) as [[raw r']|] eqn:Hq; cbn; [|discriminate].
    intros [= <- <-]. apply scan_string_length in Hq. left. split; [lia | reflexivity]. }
  destruct (Ascii.eqb c "t") eqn:Hc4.
  { destruct (strip_prefix "true" (String c r0)) as [r'|] eqn:Hp; cbn; [|discriminate].
    intros [= <- <-]. apply strip_prefix_length in Hp. simpl in Hp.
    left. split; [lia | reflexivity]. }
  destruct (Ascii.eqb c "f") eqn:Hc5.
  { destruct (strip_prefix "false" (String c r0)) as [r'|] eqn:Hp; cbn; [|discriminate].
    intros [= <- <-]. apply strip_prefix_length in Hp. simpl in Hp.
    left. split; [lia | reflexivity]. }
  destruct (Ascii.eqb c "n") eqn:Hc6.
  { destruct (strip_prefix "null" (String c r0)) as [r'|] eqn:Hp; cbn; [|discriminate].
    intros [= <- <-]. apply strip_prefix_length in Hp. simpl in Hp.
    left. split; [lia | reflexivity]. }
  destruct (scan_number (String c r0)) as [[lexeme r']|] eqn:Hn; cbn; [|discriminate].
  intros [= <- <-]. apply scan_number_length in Hn. simpl in Hn.
  left. split; [lia | reflexivity].
Qed.

Lemma elements_body_inv val el s vs r :
  elements_body val el s = Some (vs, r) →
  ∃ v r1, val s = Some (v, r1) ∧
    (((String.length r < String.length r1)%nat
      ∧ ∀ val' el', val' s = Some (v, r1) → elements_body val' el' s = Some (vs, r))
     ∨ (∃ s0 vs0, (String.length s0 < String.length r1)%nat ∧ el s0 = Some (vs0, r)
          ∧ ∀ val' el', val' s = Some (v, r1) → el' s0 = Some (vs0, r) →
                        elements_body val' el' s = Some (vs, r))).
Proof.
  unfold elements_body.
  destruct (val s) as [[v r1]|] eqn:Hv; cbn; [|discriminate].
  pose proof (skip_ws_length r1) as Hws.
  intros H. exists v, r1. split; [reflexivity|].
  destruct (head_is "," (skip_ws r1)) as [r'|] eqn:Hcomma.
  - destruct (el r') as [[vs0 r'']|] eqn:He; cbn in H; [|discriminate].
    injection H as <- <-. pose proof (head_is_length _ _ _ Hcomma) as Lcomma. right.
    exists r', vs0. split; [lia|]. split; [exact He|].
    intros val' el' -> Hel'. cbn. rewrite Hcomma, Hel'. reflexivity.
  - destruct (head_is "]" (skip_ws r1)) as [r'|] eqn:Hclose; [|discriminate].
    injection H as <- <-. pose proof (head_is_length _ _ _ Hclose) as Lclose. left.
    split; [lia|]. intros val' el' ->. cbn. now rewrite Hcomma, Hclose.
Qed.

Lemma members_body_inv val mem s ms r :
  members_body val mem s = Some (ms, r) →
  ∃ s1 v r3, (String.length s1 + 2 < String.length s)%nat ∧ val s1 = Some (v, r3) ∧
    (((String.length r < String.length r3)%nat
      ∧ ∀ val' mem', val' s1 = Some (v, r3) → members_body val' mem' s = Some (ms, r))
     ∨ (∃ s0 ms0, (String.length s0 < String.length r3)%nat ∧ mem s0 = Some (ms0, r)
          ∧ ∀ val' mem', val' s1 = Some (v, r3) → mem' s0 = Some (ms0, r) →
                         members_body val' mem' s = Some (ms, r))).
Proof.
  unfold members_body. pose proof (skip_ws_length s) as Hws.
  destruct (head_is dquote (skip_ws s)) as [r0|] eqn:Hq; cbn; [|discriminate].
  destruct (scan_string InChars r0) as [[k r1]|] eqn:Hk; cbn; [|discriminate].
  pose proof (skip_ws_length r1) as Hws1.
  destruct (head_is ":" (skip_ws r1)) as [r2|] eqn:Hcolon; cbn; [|discriminate].
  destruct (val r2) as [[v r3]|] eqn:Hv; cbn; [|discriminate].
  pose proof (skip_ws_length r3) as Hws3.
  pose proof (head_is_length _ _ _ Hq) as Lq. apply scan_string_length in Hk.
  pose proof (head_is_length _ _ _ Hcolon) as Lcolon.
  intros H. exists r2, v, r3. split; [lia|]. split; [exact Hv|].
  destruct (head_is "," (skip_ws r3)) as [r4|] eqn:Hcomma.
  - destruct (mem r4) as [[ms0 r5]|] eqn:Hm; cbn in H; [|discriminate].
    injection H as <- <-. pose proof (head_is_length _ _ _ Hcomma) as Lcomma. right.
    exists r4, ms0. split; [lia|]. split; [exact Hm|].
    intros val' mem' Hval' Hmem'. cbn. rewrite Hval'. cbn. rewrite Hcomma, Hmem'. reflexivity.
  - destruct (head_is "}" (skip_ws r3)) as [r4|] eqn:Hclose; [|discriminate].
    injection H as <- <-. pose proof (head_is_length _ _ _ Hclose) as Lclose. left.
    split; [lia|]. intros val' mem' Hval'. cbn. rewrite Hval'. cbn. now rewrite Hcomma, Hclose.
Qed.

(** A run that succeeds with some fuel succeeds with any fuel that is at
    least twice the number of characters it consumes. *)
Lemma parse_fuel fuel :
  (∀ s v r, parse_value fuel s = Some (v, r) →
     (String.length r < String.length s)%nat
     ∧ ∀ fuel', (2 * (String.length s - String.length r) ≤ fuel' + 1)%nat → parse_value fuel' s = Some (v, r))
  ∧ (∀ s vs r, parse_elements fuel s = Some (vs, r) →
     (String.length r + 1 < String.length s)%nat
     ∧ ∀ fuel', (2 * (String.length s - String.length r) ≤ fuel' + 2)%nat → parse_elements fuel' s = Some (vs, r))
  ∧ (∀ s ms r, parse_members fuel s = Some (ms, r) →
     (String.length r + 1 < String.length s)%nat
     ∧ ∀ fuel', (2 * (String.length s - String.length r) ≤ fuel' + 2)%nat → parse_members fuel' s = Some (ms, r)).
Proof.
  induction fuel as [|fuel (IHv & IHe & IHm)]; [repeat split; discriminate|].
  split; [|split].
  - intros s v r H. cbn [parse_value] in H.
    apply value_body_inv in H
      as [(Hlen & Hany) | [(s0 & vs & Hs0 & Hel & Hre) | (s0 & ms & Hs0 & Hmem & Hre)]].
    + split; [exact Hlen|]. intros [|fuel'] Hf; [lia|]. apply Hany.
    + destruct (IHe _ _ _ Hel) as [Hl He']. split; [lia|].
      intros [|fuel'] Hf; [lia|]. apply Hre, He'. lia.
    + destruct (IHm _ _ _ Hmem) as [Hl Hm']. split; [lia|].
      intros [|fuel'] Hf; [lia|]. apply Hre, Hm'. lia.
  - intros s vs r H. cbn [parse_elements] in H.
    apply elements_body_inv in H
      as (v & r1 & Hval & [(Hlen & Hre) | (s0 & vs0 & Hs0 & Hel & Hre)]);
      destruct (IHv _ _ _ Hval) as [Hl1 Hv'].
    + split; [lia|]. intros [|fuel'] Hf; [lia|]. apply Hre, Hv'. lia.
    + destruct (IHe _ _ _ Hel) as [Hl2 He']. split; [lia|].
      intros [|fuel'] Hf; [lia|]. apply Hre; [apply Hv' | apply He']; lia.
  - intros s ms r H. cbn [parse_members] in H.
    apply members_body_inv in H
      as (s1 & v & r3 & Hs1 & Hval & [(Hlen & Hre) | (s0 & ms0 & Hs0 & Hmem & Hre)]);
      destruct (IHv _ _ _ Hval) as [Hl1 Hv'].
    + split; [lia|]. intros [|fuel'] Hf; [lia|]. apply Hre, Hv'. lia.
    + destruct (IHm _ _ _ Hmem) as [Hl2 Hm']. split; [lia|].
      intros [|fuel'] Hf; [lia|]. apply Hre; [apply Hv' | apply Hm']; lia.
Qed.

(** The fuel of [parse] is enough: whatever any amount of fuel can parse,
    it parses. *)
Lemma parse_value_fuel fuel text v r :
  parse_value fuel text = Some (v, r) →
  parse_value (2 * String.length text + 2) text = Some (v, r).
Proof.
  intros H. destruct (parse_fuel fuel) as (Hv & _ & _).
  destruct (Hv _ _ _ H) as [_ Hany]. apply Hany. lia.
Qed.

Lemma parse_complete text v :
  (∃ fuel r, parse_value fuel text = Some (v, r) ∧ skip_ws r = "")
  ↔ parse text = Some v.
Proof.
  unfold parse. split.
  - intros (fuel & r & Hrun & Hrest).
    rewrite (parse_value_fuel _ _ _ _ Hrun), Hrest. reflexivity.
  - destruct (parse_value _ text) as [[v' r]|] eqn:Hrun; [|discriminate].
    destruct (String.eqb_spec (skip_ws r) ""); [|discriminate].
    intros [= <-]. eauto.
Qed.

End JsonTexts.

(** ** The query string *)

Section QueryString.

Import querystring.

Lemma hexTable_escaped c : all_chars escaped_char (hexTable c) = true.
Proof. destruct c as [[] [] [] [] [] [] [] []]; reflexivity. Qed.

Lemma escape_escaped s : all_chars escaped_char (escape s) = true.
Proof.
  induction s as [|c r IH]; [reflexivity|].
  change (escape (String c r))
    with (if noEscape c then String c (escape r) else hexTable c +:+ escape r).
  destruct (noEscape c) eqn:Hc.
  - simpl. unfold escaped_char at 1. now rewrite Hc, IH.
  - rewrite all_chars_app, hexTable_escaped, IH. reflexivity.
Qed.

(** An unreserved string is its own escaping. *)
Lemma escape_unreserved s : all_chars noEscape s = true → escape s = s.
Proof.
  induction s as [|c r IH]; simpl; [reflexivity|].
  rewrite andb_true_iff. intros [Hc Hr]. now rewrite Hc, (IH Hr).
Qed.

Lemma uint_unreserved d : all_chars noEscape (NilEmpty.string_of_uint d) = true.
Proof. induction d; simpl; auto. Qed.

(** A number prints in unreserved characters: digits, a minus sign and
    letters. *)
Lemma number_unreserved x : all_chars noEscape (number_to_string x) = true.
Proof.
  destruct x as [n safe| |[]]; try reflexivity.
  unfold number_to_string, NilZero.string_of_int.
  assert (Hu : ∀ d, all_chars noEscape (NilZero.string_of_uint d) = true).
  { intros d. unfold NilZero.string_of_uint.
    destruct d; try reflexivity; apply uint_unreserved. }
  destruct (Z.to_int n); simpl; now rewrite ?Hu.
Qed.

(** A safe integer is below [1e21]: [stringify] never has to escape the
    exponent of a modelled number. *)
Lemma safe_below_1e21 n (safe : is_safe_integer n = true) :
  below_1e21 (Integer n safe) = true.
Proof.
  assert (Hpow : 10 ^ 21 = 1000000000000000000000) by (vm_compute; reflexivity).
  pose proof safe as Hsafe. apply Z.leb_le in Hsafe.
  unfold MAX_SAFE_INTEGER in Hsafe.
  unfold below_1e21. apply Z.ltb_lt. rewrite Hpow. lia.
Qed.

Lemma encodeStringified_number x :
  encodeStringified (VNumber x)
  = if isFinite x then number_to_string x else "".
Proof.
  destruct x as [n safe| |neg]; try reflexivity.
  unfold encodeStringified, isFinite. now rewrite safe_below_1e21.
Qed.

Lemma encodeStringified_scalar v :
  is_scalar v = true → encodeStringified v = escape (to_string v).
Proof.
  destruct v as [| |b|x|s| |]; try discriminate; intros Hv.
  - now destruct b.
  - rewrite encodeStringified_number. simpl in Hv. rewrite Hv.
    symmetry. apply escape_unreserved, number_unreserved.
  - simpl. destruct (String.eqb_spec s ""); [now subst | reflexivity].
Qed.

Lemma encodeStringified_escaped v :
  all_chars escaped_char (encodeStringified v) = true.
Proof.
  destruct v as [| |b|x|s| |]; try reflexivity.
  - now destruct b.
  - rewrite encodeStringified_number. destruct (isFinite x); [|reflexivity].
    apply all_chars_weaken with (strong := noEscape).
    + intros c Hc. unfold escaped_char. now rewrite Hc.
    + apply number_unreserved.
  - simpl. destruct (String.eqb s ""); [reflexivity | apply escape_escaped].
Qed.

Lemma key_prefix k : encodeStringified (VStr k) +:+ "=" = escape k +:+ "=".
Proof. simpl. destruct (String.eqb_spec k ""); [now subst | reflexivity]. Qed.

(** A token never holds the separator, so the separator cuts the
    serialisation exactly between tokens. *)
Lemma field_free k v : free_of "&" (field k v) = true.
Proof.
  unfold field, free_of. rewrite !all_chars_app.
  assert (Hw : ∀ s, all_chars escaped_char s = true →
                    all_chars (λ c, negb (Ascii.eqb c "&")) s = true).
  { intros s. apply all_chars_weaken. intros c.
    destruct c as [[] [] [] [] [] [] [] []]; now vm_compute. }
  rewrite (Hw _ (escape_escaped k)), (Hw _ (encodeStringified_escaped v)).
  reflexivity.
Qed.

Lemma field_nonempty k v : field k v ≠ "".
Proof.
  unfold field. intros H.
  destruct (escape k); simpl in H; discriminate.
Qed.

Lemma tokens_free o : Forall (λ t, free_of "&" t = true) (tokens o).
Proof.
  unfold tokens. induction o as [|[k v] o IH]; simpl; [constructor|].
  apply Forall_app. split; [|exact IH].
  unfold fields_of; simpl. destruct v; try (repeat constructor; apply field_free).
  apply List.Forall_forall. intros t Ht. apply in_map_iff in Ht as (e & <- & _).
  apply field_free.
Qed.

Lemma fields_of_nonempty kv : Forall (λ t, t ≠ "") (fields_of kv).
Proof.
  destruct kv as [k v]. unfold fields_of; simpl.
  destruct v; try (repeat constructor; apply field_nonempty).
  apply List.Forall_forall. intros t Ht. apply in_map_iff in Ht as (e & <- & _).
  apply field_nonempty.
Qed.

Lemma stringify_array_spec ks elems fields :
  stringify_array ks false elems fields
  = fields +:+ amp_all (map (λ e, ks +:+ encodeStringified e) elems).
Proof.
  revert fields. induction elems as [|e elems IH]; intros fields; simpl.
  - now rewrite append_empty_r.
  - rewrite IH, amp_all_cons. now rewrite !append_assoc.
Qed.

Lemma field_assoc k v : (escape k +:+ "=") +:+ encodeStringified v = field k v.
Proof. unfold field. now rewrite append_assoc. Qed.

(** One turn of the loop adds the tokens of one property. *)
Lemma stringify_step_spec (done : list string) kv :
  Forall (λ t, t ≠ "") done →
  stringify_step (String.concat "&" done) kv
  = String.concat "&" (done ++ fields_of kv).
Proof.
  intros Hne. destruct kv as [k v].
  unfold stringify_step, fields_of. cbv zeta. cbn [fst snd].
  rewrite key_prefix.
  set (head := if String.eqb (String.concat "&" done) ""
               then String.concat "&" done
               else String.concat "&" done +:+ "&").
  assert (Hhead : ∀ t ts,
             head +:+ t +:+ amp_all ts = String.concat "&" (done ++ t :: ts)).
  { intros t ts. subst head. destruct done as [|d ds].
    - change ([] ++ t :: ts)%list with (t :: ts). now rewrite concat_amp_cons.
    - rewrite <- app_comm_cons, !concat_amp_cons, amp_all_app, amp_all_cons.
      inversion Hne as [|? ? Hd _]; subst.
      destruct (String.eqb_spec (d +:+ amp_all ds) "") as [Hz|_].
      + apply append_is_empty in Hz. contradiction.
      + now rewrite !append_assoc. }
  assert (Hone : ∀ x, head +:+ (escape k +:+ "=") +:+ encodeStringified x
                      = String.concat "&" (done ++ [field k x])).
  { intros x. rewrite field_assoc, <- Hhead.
    unfold amp_all. cbn [map String.concat]. now rewrite append_empty_r. }
  destruct v as [| | | | |elems|]; try apply Hone.
  destruct elems as [|e elems]; [now rewrite app_nil_r|].
  cbn [stringify_array map]. rewrite stringify_array_spec.
  rewrite (map_ext _ (field k) (field_assoc k)), field_assoc.
  rewrite append_assoc. apply Hhead.
Qed.

Lemma stringify_from (done : list string) o :
  Forall (λ t, t ≠ "") done →
  fold_left stringify_step o (String.concat "&" done)
  = String.concat "&" (done ++ tokens o).
Proof.
  revert done. induction o as [|kv o IH]; intros done Hne; simpl.
  - now rewrite app_nil_r.
  - rewrite stringify_step_spec by assumption.
    rewrite IH.
    + unfold tokens. simpl. now rewrite <- List.app_assoc.
    + apply Forall_app. split; [assumption | apply fields_of_nonempty].
Qed.

(** With scalar values every property is one token, its key and its
    value escaped. *)
Lemma tokens_scalar o :
  Forall (λ kv, is_scalar kv.2 = true) o →
  tokens o = map (λ kv, escape kv.1 +:+ "=" +:+ escape (to_string kv.2)) o.
Proof.
  induction 1 as [|[k v] o Hv _ IH]; [reflexivity|].
  unfold tokens in *. cbn [flat_map map]. rewrite IH.
  unfold fields_of, field. cbn [fst snd] in *.
  rewrite <- (encodeStringified_scalar v Hv).
  destruct v; try discriminate; reflexivity.
Qed.

(** Whatever the value, [encodeStringified] writes the value of the
    pair. *)
Lemma encodeStringified_pair_value v : encodeStringified v = pair_value v.
Proof.
  unfold pair_value. destruct (is_scalar v) eqn:Hv;
    [now apply encodeStringified_scalar|].
  destruct v as [| |b|x|s| |]; try discriminate; try reflexivity.
  rewrite encodeStringified_number. simpl in Hv. now rewrite Hv.
Qed.

Lemma tokens_pairs o : tokens o = flat_map pairs_of o.
Proof.
  unfold tokens. induction o as [|[k v] o IH]; [reflexivity|].
  cbn [flat_map]. rewrite IH. f_equal.
  unfold fields_of, pairs_of, field. cbn [fst snd].
  destruct v; try (now rewrite encodeStringified_pair_value).
  apply map_ext. intros e. now rewrite encodeStringified_pair_value.
Qed.

(** Node's loop, which puts the separator in front of every token but
    the first, computes the tokens joined by the separator. *)
Lemma stringify_tokens o : stringify o = String.concat "&" (tokens o).
Proof. exact (stringify_from [] o (List.Forall_nil _)). Qed.

(** Cut at the separator, a non-empty serialisation gives its tokens. *)
Lemma split_stringify o :
  tokens o ≠ [] → split_on "&" (stringify o) = tokens o.
Proof.
  intros Hne. rewrite stringify_tokens.
  apply (split_on_concat "&"); [assumption | apply tokens_free].
Qed.

End QueryString.

(** ** Objects *)

Section Objects.

Lemma read_assign_same k v o : read_prop k (assign_prop k v o) = v.
Proof.
  unfold read_prop. induction o as [|[k' v'] o IH]; simpl.
  - now rewrite String.eqb_refl.
  - destruct (String.eqb k k') eqn:Hk; simpl; rewrite Hk; [reflexivity | exact IH].
Qed.

Lemma read_assign_other k k' v o :
  k ≠ k' → read_prop k' (assign_prop k v o) = read_prop k' o.
Proof.
  intros Hne. unfold read_prop. induction o as [|[k0 v0] o IH]; simpl.
  - apply String.eqb_neq in Hne. rewrite String.eqb_sym in Hne. now rewrite Hne.
  - destruct (String.eqb_spec k k0) as [->|Hk0]; simpl.
    + apply String.eqb_neq in Hne. rewrite String.eqb_sym in Hne. now rewrite Hne.
    + destruct (String.eqb k' k0); [reflexivity | exact IH].
Qed.

Lemma assign_in k v o : In (k, v) (assign_prop k v o).
Proof.
  induction o as [|[k' v'] o IH]; simpl; [now left|].
  destruct (String.eqb_spec k k') as [->|_]; simpl; [now left | now right].
Qed.

Lemma assign_keeps k v k' v' o :
  k ≠ k' → In (k', v') o → In (k', v') (assign_prop k v o).
Proof.
  intros Hne. induction o as [|[k0 v0] o IH]; simpl; [tauto|].
  intros [Heq|Hin].
  - inversion Heq; subst. destruct (String.eqb_spec k k'); [contradiction | now left].
  - destruct (String.eqb k k0); simpl; [now right | right; now apply IH].
Qed.

(** A property that is not an array shows as one token of the query. *)
Lemma token_of_property k v o :
  In (k, v) o → Utils.isArray v = false →
  In (querystring.field k v) (querystring.tokens o).
Proof.
  intros Hin Hv. unfold querystring.tokens. apply in_flat_map.
  exists (k, v). split; [assumption|].
  unfold querystring.fields_of; simpl.
  destruct v; try discriminate; now left.
Qed.

(** An array prints as its elements joined by commas. *)
Lemma to_string_array elems : to_string (VArr elems) = Array_join elems ",".
Proof. reflexivity. Qed.

End Objects.

(** ** The request-option builder *)

Section Builder.

Variable API_VERSION : string.
Variable HOST : string.

Local Notation "'build'" := (_buildRequestOptions API_VERSION HOST).

Lemma prefix_append a b : String.prefix a (a +:+ b) = true.
Proof.
  induction a as [|c a IH]; simpl; [now destruct b|].
  destruct (ascii_dec c c); [exact IH | contradiction].
Qed.

(** What the builder returns, for every argument: it never throws and
    leaves the state alone. *)
Lemma build_run method endpoint params w :
  build method endpoint params w
  = (Normal {| path := match params with
                       | VObj l => "/api/v" +:+ API_VERSION +:+ endpoint +:+ "?"
                                   +:+ querystring.stringify (object_at w l)
                       | _ => "/api/v" +:+ API_VERSION +:+ endpoint
                       end;
               method := toUpperCase method; host := HOST; port := 443 |}, w).
Proof. destruct params; reflexivity. Qed.

(** C7, as the code has it. The query string of the built path is made
    of the pairs of the mapping and nothing else, joined by [&] in the
    order in which [Object.keys] lists the properties.  A string, a
    finite number or a boolean gives one pair: the percent-encoded key,
    [=] and the percent-encoded value.  An array gives one such pair for
    each of its elements, under the same key, and none when it is empty.
    Any other value ([null], [undefined], [NaN], an infinity, a nested
    object) gives the key with an empty value.  For a mapping of strings,
    finite numbers and booleans that is the query string the
    specification describes. *)
Theorem query_is_the_encoded_pairs method endpoint l w :
  build method endpoint (VObj l) w
  = (Normal {| path := "/api/v" +:+ API_VERSION +:+ endpoint +:+ "?" +:+
                 String.concat "&" (flat_map pairs_of (object_at w l));
               method := toUpperCase method; host := HOST; port := 443 |}, w)
  ∧ (Forall (λ kv, is_scalar kv.2 = true) (object_at w l) →
     String.concat "&" (flat_map pairs_of (object_at w l))
     = claimed_query (object_at w l)).
Proof.
  split.
  - now rewrite build_run, stringify_tokens, tokens_pairs.
  - intros Hscalar. rewrite <- tokens_pairs. unfold claimed_query.
    now rewrite tokens_scalar.
Qed.

(** C8, as the code has it. The built path starts with the version
    prefix [/api/v<API_VERSION>] followed by the endpoint template.
    Without a parameter object that is the whole path; with one, [?]
    and the serialised parameters follow, also when the object is
    empty. *)
Theorem path_has_prefix_and_endpoint method endpoint params w :
  ∃ options,
    build method endpoint params w = (Normal options, w)
    ∧ String.prefix ("/api/v" +:+ API_VERSION +:+ endpoint) (path options) = true
    ∧ path options
      = match params with
        | VObj l => ("/api/v" +:+ API_VERSION +:+ endpoint) +:+ "?"
                    +:+ querystring.stringify (object_at w l)
        | _ => "/api/v" +:+ API_VERSION +:+ endpoint
        end.
Proof.
  eexists. split; [apply build_run|]. cbn [path].
  assert (Hassoc : ∀ q,
    "/api/v" +:+ API_VERSION +:+ endpoint +:+ "?" +:+ q
    = ("/api/v" +:+ API_VERSION +:+ endpoint) +:+ "?" +:+ q).
  { intros q. now rewrite !append_assoc. }
  destruct params; try (split; [|reflexivity]).
  1-6: rewrite <- (append_empty_r ("/api/v" +:+ API_VERSION +:+ endpoint)) at 2;
       apply prefix_append.
  rewrite Hassoc. split; [apply prefix_append | reflexivity].
Qed.

(** C10. An argument that is not a parameter object (a string, a number,
    a boolean, an array, [null], nothing at all) counts as absent: the
    path gets no query string and nothing is thrown. *)
Theorem non_object_params_are_dropped method endpoint params w :
  Utils.isObject params = false →
  build method endpoint params w
  = (Normal {| path := "/api/v" +:+ API_VERSION +:+ endpoint;
               method := toUpperCase method; host := HOST; port := 443 |}, w).
Proof. intros Hno. rewrite build_run. destruct params; try reflexivity; discriminate. Qed.

End Builder.

(** ** The HTTPS invocation *)

Section Request.

Variable remote : RequestOptions → Outcome.

(** No JSON text starts with [<]: a text the parser accepts is not an
    HTML page. *)
Lemma json_is_not_html text j :
  JSON.parse text = Some j → startsWith text "<!DOCTYPE html>" = false.
Proof.
  intros Hparse. destruct text as [|c r]; [reflexivity|].
  unfold startsWith. cbn [String.prefix].
  destruct (ascii_dec "<" c) as [<-|]; [|reflexivity].
  exfalso. revert Hparse. unfold JSON.parse.
  replace (2 * String.length (String "<" r) + 2)%nat
    with (S (2 * String.length (String "<" r) + 1))%nat by lia.
  cbn. discriminate.
Qed.

(** What [_request] does, case by case. *)
Lemma request_run options w :
  _request remote options w
  = match remote options with
    | Failed error => (Normal (Rejected error), after_request w options [])
    | Silent => (Normal Pending, after_request w options [])
    | Answered res =>
        let text := Buffer_concat_toString (chunks res) in
        if startsWith text "<!DOCTYPE html>"
        then (Normal (Rejected invalid_request), after_request w options [])
        else match JSON.parse text with
             | Some j =>
                 (Normal (Fulfilled
                    {| success := negb ((statusCode res <? 200) || (statusCode res >=? 300));
                       message := statusMessage res;
                       code := statusCode res;
                       data := Parsed j |}),
                  after_request w options [text])
             | None =>
                 (Normal (Rejected (SyntaxError text)), after_request w options [text])
             end
    end.
Proof.
  unfold _request, after_request, https_request, mbind, JS_bind.
  destruct (remote options) as [error|res|]; cbn.
  - now rewrite app_nil_r.
  - unfold on_end, try_catch, when, _WARN_, JSON_parse, throw, mbind, JS_bind, mret, JS_ret.
    cbn. destruct (startsWith _ _); cbn.
    + now rewrite app_nil_r.
    + destruct (JSON.parse _); reflexivity.
  - now rewrite app_nil_r.
Qed.

(** [_request] never throws: it hands back a promise, has sent the
    request, and leaves the heap alone. *)
Lemma request_effect options w :
  ∃ promise texts,
    _request remote options w = (Normal promise, after_request w options texts).
Proof.
  rewrite request_run. destruct (remote options) as [error|res|]; cbn zeta.
  - eauto.
  - destruct (startsWith _ _); [eauto|]. destruct (JSON.parse _); eauto.
  - eauto.
Qed.

(** C1. A response whose body parses as JSON resolves the promise with
    the envelope of status message, status code and parsed body, and
    [success] holds exactly for the status codes from 200 up to, not
    including, 300. *)
Theorem json_response_resolves options w res j :
  remote options = Answered res →
  JSON.parse (Buffer_concat_toString (chunks res)) = Some j →
  ∃ envelope w',
    _request remote options w = (Normal (Fulfilled envelope), w')
    ∧ message envelope = statusMessage res
    ∧ code envelope = statusCode res
    ∧ data envelope = Parsed j
    ∧ (success envelope = true ↔ 200 ≤ statusCode res < 300).
Proof.
  intros Hres Hjson. rewrite request_run, Hres. cbn zeta.
  rewrite (json_is_not_html _ _ Hjson), Hjson.
  eexists _, _. split; [reflexivity|]. cbn [message code data success].
  do 3 (split; [reflexivity|]).
  rewrite negb_true_iff, orb_false_iff, Z.ltb_ge, Z.geb_leb, Z.leb_gt. lia.
Qed.

(** C4. A response whose body starts with [<!DOCTYPE html>] rejects the
    promise with the invalid-request error; [JSON.parse] is not called,
    and no envelope is delivered. *)
Theorem html_response_is_invalid_request options w res :
  remote options = Answered res →
  startsWith (Buffer_concat_toString (chunks res)) "<!DOCTYPE html>" = true →
  ∃ w',
    _request remote options w = (Normal (Rejected invalid_request), w')
    ∧ is_invalid_request invalid_request = true
    ∧ parsed w' = parsed w
    ∧ ∀ envelope, (_request remote options w).1 ≠ Normal (Fulfilled envelope).
Proof.
  intros Hres Hhtml. rewrite request_run, Hres. cbn zeta. rewrite Hhtml.
  eexists. split; [reflexivity|]. split; [reflexivity|]. split.
  - cbn. apply app_nil_r.
  - intros envelope. cbn. discriminate.
Qed.

End Request.

(** ** The endpoint methods *)

Section Endpoints.

Variable API_VERSION : string.
Variable HOST : string.
Variable remote : RequestOptions → Outcome.

Lemma guard_condition v :
  negb (Utils.isString v) || Utils.isStringEmpty v = negb (is_nonempty_string v).
Proof. destruct v; try reflexivity. simpl. now rewrite negb_involutive. Qed.

Lemma check_coinId_run coinId w :
  check_coinId coinId w
  = if is_nonempty_string coinId then (Normal (), w) else (Throw coinId_error, w).
Proof.
  unfold check_coinId. rewrite guard_condition.
  now destruct (is_nonempty_string coinId).
Qed.

Lemma check_exchangeId_run exchangeId w :
  check_exchangeId exchangeId w
  = if is_nonempty_string exchangeId then (Normal (), w)
    else (Throw exchangeId_error, w).
Proof.
  unfold check_exchangeId. rewrite guard_condition.
  now destruct (is_nonempty_string exchangeId).
Qed.

(** An [async] body that opens with a guard: a guard that throws settles
    the call, a guard that passes lets the rest run. *)
Lemma async_guard (guard : JS unit) (rest : JS Promise) w :
  async (guard;; rest) w
  = match guard w with
    | (Normal _, w') => async rest w'
    | (Throw e, w') => (Normal (Rejected e), w')
    end.
Proof.
  unfold async, try_catch, mbind, JS_bind.
  destruct (guard w) as [[[]|e] w']; reflexivity.
Qed.

(** C2, as the code has it. Every method of [coins] and [exchanges] that
    takes a coin or exchange identifier refuses an identifier that is
    not a non-empty string: the promise it returns is rejected with the
    invalid-parameter error, and the state is the one before the call,
    so no request has been sent. *)
Theorem invalid_id_is_refused (id params : value) (w : World) :
  is_nonempty_string id = false →
  coins_fetch API_VERSION HOST remote id params w
    = (Normal (Rejected coinId_error), w)
  ∧ coins_fetchTickers API_VERSION HOST remote id params w
    = (Normal (Rejected coinId_error), w)
  ∧ coins_fetchHistory API_VERSION HOST remote id params w
    = (Normal (Rejected coinId_error), w)
  ∧ coins_fetchMarketChart API_VERSION HOST remote id params w
    = (Normal (Rejected coinId_error), w)
  ∧ coins_fetchStatusUpdates API_VERSION HOST remote id params w
    = (Normal (Rejected coinId_error), w)
  ∧ exchanges_fetch API_VERSION HOST remote id w
    = (Normal (Rejected exchangeId_error), w)
  ∧ exchanges_fetchTickers API_VERSION HOST remote id params w
    = (Normal (Rejected exchangeId_error), w)
  ∧ exchanges_fetchStatusUpdates API_VERSION HOST remote id params w
    = (Normal (Rejected exchangeId_error), w).
Proof.
  intros Hid.
  unfold coins_fetch, coins_fetchTickers, coins_fetchHistory,
    coins_fetchMarketChart, coins_fetchStatusUpdates, exchanges_fetch,
    exchanges_fetchTickers, exchanges_fetchStatusUpdates.
  rewrite !async_guard, !check_coinId_run, !check_exchangeId_run, Hid.
  repeat split.
Qed.

Lemma async_bind {A : Type} (m : JS A) (f : A → JS Promise) w :
  async (m ≫= f) w
  = match m w with
    | (Normal a, w') => async (f a) w'
    | (Throw e, w') => (Normal (Rejected e), w')
    end.
Proof.
  unfold async, try_catch, mbind, JS_bind.
  destruct (m w) as [[a|e] w']; reflexivity.
Qed.

Lemma bind_run {A B : Type} (m : JS A) (f : A → JS B) w :
  (m ≫= f) w
  = match m w with
    | (Normal a, w') => f a w'
    | (Throw e, w') => (Throw e, w')
    end.
Proof. reflexivity. Qed.

Lemma async_request options w :
  async (_request remote options) w = _request remote options w.
Proof.
  unfold async, try_catch.
  destruct (request_effect remote options w) as (promise & texts & ->).
  reflexivity.
Qed.

(** C3. A call of [coins.fetchHistory] whose parameters hold no [date],
    or a [date] that is not a non-empty string, is refused with a
    parameter error and the state is the one before the call, so no
    request has been sent.  With a proper [coinId] and a parameter
    object, the error is the missing-parameter one; otherwise the guard
    on [coinId] or on [params] has spoken first. *)
Theorem missing_date_is_refused (coinId params : value) (w : World) :
  is_nonempty_string (entry w params "date") = false →
  ∃ reason,
    coins_fetchHistory API_VERSION HOST remote coinId params w
      = (Normal (Rejected reason), w)
    ∧ is_parameter_error reason = true
    ∧ (is_nonempty_string coinId = true → Utils.isObject params = true →
       reason = date_error).
Proof.
  intros Hdate. unfold coins_fetchHistory.
  rewrite async_guard, check_coinId_run.
  destruct (is_nonempty_string coinId).
  - rewrite async_guard.
    destruct params as [| | | | | |l];
      try (exists params_error; split; [reflexivity|];
           split; [reflexivity | intros _ ?; discriminate]).
    cbn [Utils.isObject negb when mret JS_ret].
    rewrite async_bind. cbn [get entry] in *.
    rewrite async_guard, guard_condition, Hdate.
    exists date_error. repeat split.
  - exists coinId_error. split; [reflexivity|].
    split; [reflexivity | intros ?; discriminate].
Qed.

(** *** The methods that fill in defaults *)

Lemma set_run l k x w :
  set (VObj l) k x w = (Normal (), store l (assign_prop k x (object_at w l)) w).
Proof. reflexivity. Qed.

Lemma get_run l k w :
  get (VObj l) k w = (Normal (read_prop k (object_at w l)), w).
Proof. reflexivity. Qed.

Lemma object_at_store l o w : object_at (store l o w) l = o.
Proof. unfold object_at, store; simpl. now rewrite lookup_insert_eq. Qed.

Lemma currency_step l (rest : JS Promise) w :
  async (vs_currency ← get (VObj l) "vs_currency";
         when (negb (Utils.isString vs_currency) || Utils.isStringEmpty vs_currency)
           (set (VObj l) "vs_currency" (VStr "usd"));;
         rest) w
  = async rest (with_currency l w).
Proof.
  rewrite async_bind, get_run, async_guard, guard_condition.
  unfold with_currency.
  destruct (is_nonempty_string _); reflexivity.
Qed.

Lemma coins_markets_run l w :
  coins_markets API_VERSION HOST remote (VObj l) w
  = _request remote
      {| path := "/api/v" +:+ API_VERSION +:+ "/coins/markets" +:+ "?" +:+
                 querystring.stringify (object_at (markets_world l w) l);
         method := "GET"; host := HOST; port := 443 |}
      (markets_world l w).
Proof.
  unfold coins_markets. rewrite async_guard.
  cbn [Utils.isObject negb when mret JS_ret].
  rewrite currency_step, async_bind, get_run, async_guard.
  unfold markets_world. cbv zeta.
  destruct (read_prop "ids" (object_at (with_currency l w) l)) eqn:Hids;
    cbn [Utils.isArray when mret JS_ret];
    rewrite ?async_bind, ?get_run, ?Hids; cbn [call_join mret JS_ret].
  all: try (rewrite ?async_bind, build_run, async_request; reflexivity).
  rewrite bind_run, get_run, Hids. cbn [call_join]. rewrite bind_run.
  cbn [mret JS_ret]. rewrite set_run, async_bind, build_run, async_request.
  reflexivity.
Qed.

Lemma coins_fetchMarketChart_run coinId l w :
  is_nonempty_string coinId = true →
  coins_fetchMarketChart API_VERSION HOST remote coinId (VObj l) w
  = _request remote
      {| path := "/api/v" +:+ API_VERSION +:+
                 ("/coins/" +:+ to_string coinId +:+ "/market_chart") +:+ "?" +:+
                 querystring.stringify (object_at (chart_world l w) l);
         method := "GET"; host := HOST; port := 443 |}
      (chart_world l w).
Proof.
  intros Hid. unfold coins_fetchMarketChart.
  rewrite async_guard, check_coinId_run, Hid, async_guard.
  cbn [Utils.isObject negb when mret JS_ret].
  rewrite currency_step, async_bind, get_run, async_guard.
  unfold chart_world. cbv zeta.
  destruct (eq_undefined (read_prop "days" (object_at (with_currency l w) l)));
    cbn [when mret JS_ret];
    rewrite ?set_run, async_bind, build_run, async_request; reflexivity.
Qed.

Lemma with_currency_sent l w : sent (with_currency l w) = sent w.
Proof. unfold with_currency. now destruct (is_nonempty_string _). Qed.

Lemma markets_world_sent l w : sent (markets_world l w) = sent w.
Proof.
  unfold markets_world. cbv zeta.
  destruct (read_prop "ids" _); apply with_currency_sent.
Qed.

Lemma chart_world_sent l w : sent (chart_world l w) = sent w.
Proof.
  unfold chart_world. cbv zeta.
  destruct (eq_undefined _); apply with_currency_sent.
Qed.

(** The currency default lands in the object. *)
Lemma with_currency_object l w :
  is_nonempty_string (read_prop "vs_currency" (object_at w l)) = false →
  object_at (with_currency l w) l
  = assign_prop "vs_currency" (VStr "usd") (object_at w l).
Proof. intros H. unfold with_currency. rewrite H. apply object_at_store. Qed.

Lemma with_currency_ids l w :
  read_prop "ids" (object_at (with_currency l w) l)
  = read_prop "ids" (object_at w l).
Proof.
  unfold with_currency. destruct (is_nonempty_string _); [reflexivity|].
  rewrite object_at_store. now apply read_assign_other.
Qed.

Lemma with_currency_days l w :
  read_prop "days" (object_at (with_currency l w) l)
  = read_prop "days" (object_at w l).
Proof.
  unfold with_currency. destruct (is_nonempty_string _); [reflexivity|].
  rewrite object_at_store. now apply read_assign_other.
Qed.

Lemma markets_world_currency l w :
  is_nonempty_string (read_prop "vs_currency" (object_at w l)) = false →
  In ("vs_currency", VStr "usd") (object_at (markets_world l w) l)
  ∧ read_prop "vs_currency" (object_at (markets_world l w) l) = VStr "usd".
Proof.
  intros H. unfold markets_world. cbv zeta.
  pose proof (with_currency_object l w H) as Hobj.
  assert (Hin : In ("vs_currency", VStr "usd") (object_at (with_currency l w) l))
    by (rewrite Hobj; apply assign_in).
  assert (Hread : read_prop "vs_currency" (object_at (with_currency l w) l) = VStr "usd")
    by (rewrite Hobj; apply read_assign_same).
  destruct (read_prop "ids" _); try (split; assumption).
  rewrite object_at_store. split.
  - now apply assign_keeps.
  - now rewrite read_assign_other.
Qed.

Lemma markets_world_ids l w elems :
  read_prop "ids" (object_at w l) = VArr elems →
  In ("ids", VStr (Array_join elems ",")) (object_at (markets_world l w) l)
  ∧ read_prop "ids" (object_at (markets_world l w) l) = VStr (Array_join elems ",").
Proof.
  intros H. unfold markets_world. cbv zeta.
  rewrite with_currency_ids, H, object_at_store.
  split; [apply assign_in | apply read_assign_same].
Qed.

Lemma chart_world_currency l w :
  is_nonempty_string (read_prop "vs_currency" (object_at w l)) = false →
  In ("vs_currency", VStr "usd") (object_at (chart_world l w) l)
  ∧ read_prop "vs_currency" (object_at (chart_world l w) l) = VStr "usd".
Proof.
  intros H. unfold chart_world. cbv zeta.
  pose proof (with_currency_object l w H) as Hobj.
  assert (Hin : In ("vs_currency", VStr "usd") (object_at (with_currency l w) l))
    by (rewrite Hobj; apply assign_in).
  assert (Hread : read_prop "vs_currency" (object_at (with_currency l w) l) = VStr "usd")
    by (rewrite Hobj; apply read_assign_same).
  destruct (eq_undefined _); try (split; assumption).
  rewrite object_at_store. split.
  - now apply assign_keeps.
  - now rewrite read_assign_other.
Qed.

Lemma chart_world_days l w :
  read_prop "days" (object_at w l) = VUndefined →
  In ("days", VNum 1) (object_at (chart_world l w) l)
  ∧ read_prop "days" (object_at (chart_world l w) l) = VNum 1.
Proof.
  intros H. unfold chart_world. cbv zeta.
  rewrite with_currency_days, H. cbn [eq_undefined].
  rewrite object_at_store.
  split; [apply assign_in | apply read_assign_same].
Qed.

Lemma request_sends_query_with (call : JS Promise) w base o w1 k v :
  call w
  = _request remote
      {| path := "/api/v" +:+ API_VERSION +:+ base +:+ "?" +:+ querystring.stringify o;
         method := "GET"; host := HOST; port := 443 |} w1 →
  sent w1 = sent w →
  In (k, v) o → Utils.isArray v = false →
  sends_query_with call w ("/api/v" +:+ API_VERSION +:+ base) (querystring.field k v).
Proof.
  intros Hcall Hsent Hin Hv. unfold sends_query_with. rewrite Hcall.
  destruct (request_effect remote
              {| path := "/api/v" +:+ API_VERSION +:+ base +:+ "?" +:+ querystring.stringify o;
                 method := "GET"; host := HOST; port := 443 |} w1)
    as (promise & texts & ->).
  eexists promise, _, (querystring.stringify o), _.
  split; [reflexivity|]. split; [cbn; now rewrite Hsent|].
  split; [cbn [path]; now rewrite !append_assoc|].
  pose proof (token_of_property k v o Hin Hv) as Htok.
  rewrite split_stringify; [assumption|].
  intros Hnil. rewrite Hnil in Htok. destruct Htok.
Qed.

(** C5. Where [vs_currency] is absent, not a string or empty,
    [coins.markets] and [coins.fetchMarketChart] send a query that holds
    [vs_currency=usd]; where [days] is undefined,
    [coins.fetchMarketChart] sends a query that holds [days=1]. *)
Theorem currency_and_days_default (coinId : value) (l : loc) (w : World) :
  (is_nonempty_string (read_prop "vs_currency" (object_at w l)) = false →
   sends_query_with (coins_markets API_VERSION HOST remote (VObj l)) w
     ("/api/v" +:+ API_VERSION +:+ "/coins/markets") "vs_currency=usd")
  ∧ (is_nonempty_string coinId = true →
     is_nonempty_string (read_prop "vs_currency" (object_at w l)) = false →
     sends_query_with (coins_fetchMarketChart API_VERSION HOST remote coinId (VObj l)) w
       ("/api/v" +:+ API_VERSION +:+ "/coins/" +:+ to_string coinId +:+ "/market_chart")
       "vs_currency=usd")
  ∧ (is_nonempty_string coinId = true →
     read_prop "days" (object_at w l) = VUndefined →
     sends_query_with (coins_fetchMarketChart API_VERSION HOST remote coinId (VObj l)) w
       ("/api/v" +:+ API_VERSION +:+ "/coins/" +:+ to_string coinId +:+ "/market_chart")
       "days=1").
Proof.
  split; [|split].
  - intros Hvs.
    apply (request_sends_query_with _ w "/coins/markets" _ _ "vs_currency" (VStr "usd")
             (coins_markets_run l w) (markets_world_sent l w)); [|reflexivity].
    now apply markets_world_currency.
  - intros Hid Hvs.
    apply (request_sends_query_with _ w ("/coins/" +:+ to_string coinId +:+ "/market_chart")
             _ _ "vs_currency" (VStr "usd")
             (coins_fetchMarketChart_run coinId l w Hid) (chart_world_sent l w));
      [|reflexivity].
    now apply chart_world_currency.
  - intros Hid Hdays.
    apply (request_sends_query_with _ w ("/coins/" +:+ to_string coinId +:+ "/market_chart")
             _ _ "days" (VNum 1)
             (coins_fetchMarketChart_run coinId l w Hid) (chart_world_sent l w));
      [|reflexivity].
    now apply chart_world_days.
Qed.

(** C6. Where [ids] is a sequence, [coins.markets] joins it with commas
    before the parameters are serialised: the query holds the token
    [ids=] followed by the escaped joined string, in which every comma
    has become [%2C]. *)
Theorem ids_sequence_is_joined (l : loc) (w : World) (elems : list value) :
  read_prop "ids" (object_at w l) = VArr elems →
  sends_query_with (coins_markets API_VERSION HOST remote (VObj l)) w
    ("/api/v" +:+ API_VERSION +:+ "/coins/markets")
    ("ids=" +:+ querystring.escape (Array_join elems ",")).
Proof.
  intros Hids.
  replace ("ids=" +:+ querystring.escape (Array_join elems ","))
    with (querystring.field "ids" (VStr (Array_join elems ","))).
  - apply (request_sends_query_with _ w "/coins/markets" _ _ "ids" _
             (coins_markets_run l w) (markets_world_sent l w)); [|reflexivity].
    now apply markets_world_ids.
  - unfold querystring.field, querystring.encodeStringified.
    destruct (String.eqb_spec (Array_join elems ",") "") as [->|]; reflexivity.
Qed.

(** C9. The defaults are written into the object the caller passed:
    after the call, read through the caller's own reference,
    [vs_currency] is ["usd"] where it was absent, not a string or empty,
    [ids] is the comma-joined string where it was a sequence, and [days]
    is [1] where it was undefined. *)
Theorem defaults_are_written_to_params (coinId : value) (l : loc) (w : World) :
  let after (call : JS Promise) := object_at (call w).2 l in
  (is_nonempty_string (read_prop "vs_currency" (object_at w l)) = false →
   read_prop "vs_currency" (after (coins_markets API_VERSION HOST remote (VObj l)))
   = VStr "usd")
  ∧ (∀ elems, read_prop "ids" (object_at w l) = VArr elems →
     read_prop "ids" (after (coins_markets API_VERSION HOST remote (VObj l)))
     = VStr (Array_join elems ","))
  ∧ (is_nonempty_string coinId = true →
     is_nonempty_string (read_prop "vs_currency" (object_at w l)) = false →
     read_prop "vs_currency"
       (after (coins_fetchMarketChart API_VERSION HOST remote coinId (VObj l)))
     = VStr "usd")
  ∧ (is_nonempty_string coinId = true →
     read_prop "days" (object_at w l) = VUndefined →
     read_prop "days"
       (after (coins_fetchMarketChart API_VERSION HOST remote coinId (VObj l)))
     = VNum 1).
Proof.
  assert (Hafter : ∀ options w1, object_at (_request remote options w1).2 l = object_at w1 l).
  { intros options w1.
    destruct (request_effect remote options w1) as (promise & texts & ->).
    reflexivity. }
  cbv zeta. repeat split.
  - intros Hvs. rewrite coins_markets_run, Hafter. now apply markets_world_currency.
  - intros elems Hids. rewrite coins_markets_run, Hafter. now apply markets_world_ids.
  - intros Hid Hvs. rewrite coins_fetchMarketChart_run, Hafter by assumption.
    now apply chart_world_currency.
  - intros Hid Hdays. rewrite coins_fetchMarketChart_run, Hafter by assumption.
    now apply chart_world_days.
Qed.

End Endpoints.

(** ** Every method at once *)

Section Calls.

Variable API_VERSION : string.
Variable HOST : string.
Variable remote : RequestOptions → Outcome.

Lemma prefix_slash Z :
  String.prefix ("/api/v" +:+ API_VERSION +:+ "/")
    ("/api/v" +:+ API_VERSION +:+ String "/" Z) = true.
Proof.
  replace ("/api/v" +:+ API_VERSION +:+ String "/" Z)
    with (("/api/v" +:+ API_VERSION +:+ "/") +:+ Z).
  - apply prefix_append.
  - rewrite !append_assoc. reflexivity.
Qed.

(** The request a method builds for the endpoint [String "/" rest]. *)
Lemma build_well_formed rest params w :
  ∃ options,
    _buildRequestOptions API_VERSION HOST "GET" (String "/" rest) params w
    = (Normal options, w) ∧ well_formed_request API_VERSION HOST options.
Proof.
  rewrite build_run. eexists. split; [reflexivity|].
  repeat split. cbn [path].
  destruct params; apply prefix_slash.
Qed.

Lemma passes_through rest params w :
  ∃ options,
    async (options ← _buildRequestOptions API_VERSION HOST "GET" (String "/" rest) params;
           _request remote options) w
    = _request remote options w ∧ well_formed_request API_VERSION HOST options.
Proof.
  destruct (build_well_formed rest params w) as (options & Hbuild & Hwf).
  exists options. split; [|exact Hwf].
  rewrite async_bind, Hbuild. apply async_request.
Qed.

Lemma store_other l o w l' : l' ≠ l → heap (store l o w) !! l' = heap w !! l'.
Proof. intros Hne. unfold store; cbn [heap]. apply lookup_insert_ne. congruence. Qed.

Lemma with_currency_parsed l w : parsed (with_currency l w) = parsed w.
Proof. unfold with_currency. now destruct (is_nonempty_string _). Qed.

Lemma with_currency_other l w l' :
  l' ≠ l → heap (with_currency l w) !! l' = heap w !! l'.
Proof.
  intros Hne. unfold with_currency.
  destruct (is_nonempty_string _); [reflexivity | now apply store_other].
Qed.

Lemma markets_world_parsed l w : parsed (markets_world l w) = parsed w.
Proof.
  unfold markets_world. cbv zeta.
  destruct (read_prop "ids" _); apply with_currency_parsed.
Qed.

Lemma markets_world_other l w l' :
  l' ≠ l → heap (markets_world l w) !! l' = heap w !! l'.
Proof.
  intros Hne. unfold markets_world. cbv zeta.
  destruct (read_prop "ids" _); rewrite ?store_other by assumption;
    now apply with_currency_other.
Qed.

Lemma chart_world_parsed l w : parsed (chart_world l w) = parsed w.
Proof.
  unfold chart_world. cbv zeta.
  destruct (eq_undefined _); apply with_currency_parsed.
Qed.

Lemma chart_world_other l w l' :
  l' ≠ l → heap (chart_world l w) !! l' = heap w !! l'.
Proof.
  intros Hne. unfold chart_world. cbv zeta.
  destruct (eq_undefined _); rewrite ?store_other by assumption;
    now apply with_currency_other.
Qed.

(** What a call comes to: it is refused with a parameter error in the
    state it started from, or it is the HTTPS invocation of one well-formed
    request, in a state that differs at most in the object the method
    writes to. *)
Lemma call_outcome c w :
  (∃ e, invoke API_VERSION HOST remote c w = (Normal (Rejected e), w) ∧ is_parameter_error e = true)
  ∨ (∃ options w1,
       invoke API_VERSION HOST remote c w = _request remote options w1
       ∧ sent w1 = sent w ∧ parsed w1 = parsed w ∧ well_formed_request API_VERSION HOST options
       ∧ match written_object c with
         | Some l => ∀ l', l' ≠ l → heap w1 !! l' = heap w !! l'
         | None => w1 = w
         end).
Proof.
  assert (Hpass : ∀ rest params,
    ∃ options w1,
      async (options ← _buildRequestOptions API_VERSION HOST "GET" (String "/" rest) params;
             _request remote options) w
      = _request remote options w1
      ∧ sent w1 = sent w ∧ parsed w1 = parsed w ∧ well_formed_request API_VERSION HOST options ∧ w1 = w).
  { intros rest params. destruct (passes_through rest params w) as (options & H & Hwf).
    exists options, w. auto. }
  assert (Hrefuse : ∀ e, is_parameter_error e = true →
    ∃ e', (Normal (Rejected e), w) = (Normal (Rejected e'), w)
          ∧ is_parameter_error e' = true) by eauto.
  destruct c as [ | | q | | q | id q | id q | id q | id q | id q | | id | id q | id q
                | q | q | n a | n q | q | q | | | ];
    cbn [invoke written_object].
  all: try (right; apply Hpass).
  - (* coins.markets *)
    destruct q as [| | | | | |l];
      try (left; unfold coins_markets; rewrite async_guard; now apply Hrefuse).
    right. rewrite coins_markets_run. eexists _, _. split; [reflexivity|].
    split; [apply markets_world_sent|]. split; [apply markets_world_parsed|].
    split; [repeat split; apply prefix_slash|]. intros l'. apply markets_world_other.
  - (* coins.fetch *)
    unfold coins_fetch. rewrite async_guard, check_coinId_run.
    destruct (is_nonempty_string id); [right; apply Hpass | left; now apply Hrefuse].
  - unfold coins_fetchTickers. rewrite async_guard, check_coinId_run.
    destruct (is_nonempty_string id); [right; apply Hpass | left; now apply Hrefuse].
  - (* coins.fetchHistory *)
    unfold coins_fetchHistory. rewrite async_guard, check_coinId_run.
    destruct (is_nonempty_string id); [|left; now apply Hrefuse].
    rewrite async_guard.
    destruct q as [| | | | | |l]; try (left; now apply Hrefuse).
    cbn [Utils.isObject negb when mret JS_ret].
    rewrite async_bind, get_run, async_guard, guard_condition.
    destruct (is_nonempty_string _); [right; apply Hpass | left; now apply Hrefuse].
  - (* coins.fetchMarketChart *)
    destruct (is_nonempty_string id) eqn:Hid.
    + destruct q as [| | | | | |l];
        try (left; unfold coins_fetchMarketChart;
             rewrite async_guard, check_coinId_run, Hid, async_guard; now apply Hrefuse).
      right. rewrite coins_fetchMarketChart_run by assumption.
      eexists _, _. split; [reflexivity|].
      split; [apply chart_world_sent|]. split; [apply chart_world_parsed|].
      split; [repeat split; apply prefix_slash|].
      destruct id; try discriminate. intros l'. apply chart_world_other.
    + left. unfold coins_fetchMarketChart.
      rewrite async_guard, check_coinId_run, Hid. now apply Hrefuse.
  - unfold coins_fetchStatusUpdates. rewrite async_guard, check_coinId_run.
    destruct (is_nonempty_string id); [right; apply Hpass | left; now apply Hrefuse].
  - unfold exchanges_fetch. rewrite async_guard, check_exchangeId_run.
    destruct (is_nonempty_string id); [right; apply Hpass | left; now apply Hrefuse].
  - unfold exchanges_fetchTickers. rewrite async_guard, check_exchangeId_run.
    destruct (is_nonempty_string id); [right; apply Hpass | left; now apply Hrefuse].
  - unfold exchanges_fetchStatusUpdates. rewrite async_guard, check_exchangeId_run.
    destruct (is_nonempty_string id); [right; apply Hpass | left; now apply Hrefuse].
Qed.


Lemma request_sent options w :
  sent (_request remote options w).2 = (sent w ++ [options])%list
  ∧ heap (_request remote options w).2 = heap w.
Proof.
  destruct (request_effect remote options w) as (promise & texts & ->).
  split; reflexivity.
Qed.

Lemma snoc_differs {A : Type} (l : list A) x : (l ++ [x])%list ≠ l.
Proof.
  intros H. apply (f_equal (@List.length A)) in H.
  rewrite List.length_app in H. simpl in H. lia.
Qed.

(** X1. A call never throws: it returns a promise.  It hands at most one
    request to the HTTPS stack, and that request is a GET to the API host
    on port 443 whose path lies under the version prefix. *)
Theorem call_sends_at_most_one_request c w :
  ∃ promise w',
    invoke API_VERSION HOST remote c w = (Normal promise, w')
    ∧ (sent w' = sent w
       ∨ ∃ options, sent w' = (sent w ++ [options])%list ∧ well_formed_request API_VERSION HOST options).
Proof.
  destruct (call_outcome c w)
    as [(e & -> & _) | (options & w1 & -> & Hsent & _ & Hwf & _)].
  - eexists _, _. split; [reflexivity | now left].
  - destruct (request_effect remote options w1) as (promise & texts & ->).
    eexists _, _. split; [reflexivity|]. right. exists options.
    split; [cbn; now rewrite Hsent | exact Hwf].
Qed.

(** X2. A call that has sent nothing has done nothing else either: the
    state is the one before the call, and the promise is rejected with a
    parameter error.  The guards run before anything is written. *)
Theorem call_without_request_changes_nothing c w :
  sent (invoke API_VERSION HOST remote c w).2 = sent w →
  (invoke API_VERSION HOST remote c w).2 = w
  ∧ ∃ e, (invoke API_VERSION HOST remote c w).1 = Normal (Rejected e) ∧ is_parameter_error e = true.
Proof.
  intros Hsent.
  destruct (call_outcome c w)
    as [(e & Hrun & He) | (options & w1 & Hrun & Hsent1 & _)];
    rewrite Hrun in *.
  - split; [reflexivity | eauto].
  - destruct (request_sent options w1) as [Hs _].
    rewrite Hs, Hsent1 in Hsent. now apply snoc_differs in Hsent.
Qed.

(** X3. Whatever the method, when the request it sent is answered with a
    body that parses as JSON, the promise it returned is fulfilled with
    the envelope of that response. *)
Theorem call_resolves_on_json c w options res j :
  sent (invoke API_VERSION HOST remote c w).2 = (sent w ++ [options])%list →
  remote options = Answered res →
  JSON.parse (Buffer_concat_toString (chunks res)) = Some j →
  (invoke API_VERSION HOST remote c w).1
  = Normal (Fulfilled
      {| success := negb ((statusCode res <? 200) || (statusCode res >=? 300));
         message := statusMessage res; code := statusCode res; data := Parsed j |}).
Proof.
  intros Hsent Hres Hjson.
  destruct (call_outcome c w)
    as [(e & Hrun & He) | (options' & w1 & Hrun & Hsent1 & _)];
    rewrite Hrun in *.
  - cbn in Hsent. symmetry in Hsent. now apply snoc_differs in Hsent.
  - destruct (request_sent options' w1) as [Hs _].
    rewrite Hs, Hsent1 in Hsent. apply app_inj_tail in Hsent as [_ ->].
    rewrite request_run, Hres. cbn zeta.
    now rewrite (json_is_not_html _ _ Hjson), Hjson.
Qed.

(** X4. Whatever the method, when the request it sent is answered with a
    body that does not parse as JSON, or fails in transport, the promise
    is rejected: with the invalid-request error for an HTML page, with
    the parse error otherwise, with the transport error as it came. *)
Theorem call_rejects_otherwise c w options :
  sent (invoke API_VERSION HOST remote c w).2 = (sent w ++ [options])%list →
  match remote options with
  | Failed error => (invoke API_VERSION HOST remote c w).1 = Normal (Rejected error)
  | Answered res =>
      let text := Buffer_concat_toString (chunks res) in
      JSON.parse text = None →
      (invoke API_VERSION HOST remote c w).1
      = Normal (Rejected (if startsWith text "<!DOCTYPE html>"
                          then invalid_request else SyntaxError text))
  | Silent => (invoke API_VERSION HOST remote c w).1 = Normal Pending
  end.
Proof.
  intros Hsent.
  destruct (call_outcome c w)
    as [(e & Hrun & He) | (options' & w1 & Hrun & Hsent1 & _)];
    rewrite Hrun in *.
  - cbn in Hsent. symmetry in Hsent. now apply snoc_differs in Hsent.
  - destruct (request_sent options' w1) as [Hs _].
    rewrite Hs, Hsent1 in Hsent. apply app_inj_tail in Hsent as [_ ->].
    rewrite request_run. destruct (remote options) as [error|res|]; try reflexivity.
    cbn zeta. intros Hjson. rewrite Hjson. now destruct (startsWith _ _).
Qed.

(** X5. A call leaves every object alone but the one it was given as
    parameters, and only [coins.markets] and [coins.fetchMarketChart]
    write to that one. *)
Theorem call_writes_only_its_params c w l :
  written_object c ≠ Some l →
  heap (invoke API_VERSION HOST remote c w).2 !! l = heap w !! l.
Proof.
  intros Hl.
  destruct (call_outcome c w)
    as [(e & -> & _) | (options & w1 & -> & _ & _ & _ & Hheap)]; [reflexivity|].
  destruct (request_sent options w1) as [_ ->].
  destruct (written_object c) as [l0|]; [|now subst].
  apply Hheap. congruence.
Qed.

End Calls.

Section Defaults.

Variable API_VERSION : string.
Variable HOST : string.
Variable remote : RequestOptions → Outcome.

Lemma lookup_in k v o : lookup_prop k o = Some v → In (k, v) o.
Proof.
  induction o as [|[k' v'] o IH]; simpl; [discriminate|].
  destruct (String.eqb_spec k k') as [->|_].
  - intros [= ->]. now left.
  - intros H. right. now apply IH.
Qed.

Lemma read_in k v o : read_prop k o = v → v ≠ VUndefined → In (k, v) o.
Proof.
  unfold read_prop. destruct (lookup_prop k o) as [v'|] eqn:Hl; simpl.
  - intros -> _. now apply lookup_in.
  - intros <- H. contradiction.
Qed.

Lemma object_after_request options w l :
  object_at (_request remote options w).2 l = object_at w l.
Proof.
  destruct (request_effect remote options w) as (promise & texts & ->).
  reflexivity.
Qed.

Lemma with_currency_frame l w k :
  k ≠ "vs_currency" →
  read_prop k (object_at (with_currency l w) l) = read_prop k (object_at w l).
Proof.
  intros Hk. unfold with_currency. destruct (is_nonempty_string _); [reflexivity|].
  rewrite object_at_store. apply read_assign_other. congruence.
Qed.

Lemma with_currency_kept l w :
  is_nonempty_string (read_prop "vs_currency" (object_at w l)) = true →
  with_currency l w = w.
Proof. intros H. unfold with_currency. now rewrite H. Qed.

Lemma markets_world_frame l w k :
  k ≠ "ids" →
  read_prop k (object_at (markets_world l w) l)
  = read_prop k (object_at (with_currency l w) l).
Proof.
  intros Hk. unfold markets_world. cbv zeta.
  destruct (read_prop "ids" _); try reflexivity.
  rewrite object_at_store. apply read_assign_other. congruence.
Qed.

Lemma chart_world_frame l w k :
  k ≠ "days" →
  read_prop k (object_at (chart_world l w) l)
  = read_prop k (object_at (with_currency l w) l).
Proof.
  intros Hk. unfold chart_world. cbv zeta.
  destruct (eq_undefined _); try reflexivity.
  rewrite object_at_store. apply read_assign_other. congruence.
Qed.

Lemma chart_refused coinId params w :
  is_nonempty_string coinId = false →
  coins_fetchMarketChart API_VERSION HOST remote coinId params w = (Normal (Rejected coinId_error), w).
Proof.
  intros Hid. unfold coins_fetchMarketChart.
  now rewrite async_guard, check_coinId_run, Hid.
Qed.

(** X6. The defaults touch nothing but their own keys: after
    [coins.markets] every parameter other than [vs_currency] and [ids],
    and after [coins.fetchMarketChart] every parameter other than
    [vs_currency] and [days], reads as it did before the call. *)
Theorem defaults_touch_only_their_keys (coinId : value) (l : loc) (w : World) (k : string) :
  k ≠ "vs_currency" →
  (k ≠ "ids" →
   read_prop k (object_at (coins_markets API_VERSION HOST remote (VObj l) w).2 l) = read_prop k (object_at w l))
  ∧ (k ≠ "days" →
     read_prop k (object_at (coins_fetchMarketChart API_VERSION HOST remote coinId (VObj l) w).2 l) = read_prop k (object_at w l)).
Proof.
  intros Hvs. split; intros Hk.
  - rewrite coins_markets_run, object_after_request.
    now rewrite markets_world_frame, with_currency_frame.
  - destruct (is_nonempty_string coinId) eqn:Hid.
    + rewrite coins_fetchMarketChart_run, object_after_request by assumption.
      now rewrite chart_world_frame, with_currency_frame.
    + now rewrite chart_refused.
Qed.

Lemma field_of_string k s :
  querystring.field k (VStr s) = querystring.escape k +:+ "=" +:+ querystring.escape s.
Proof.
  unfold querystring.field, querystring.encodeStringified.
  destruct (String.eqb_spec s "") as [->|]; reflexivity.
Qed.

(** X7. A currency the caller gives is kept: where [vs_currency] is a
    non-empty string, [coins.markets] and [coins.fetchMarketChart] leave it
    in the object and send it, escaped, in the query. *)
Theorem given_currency_is_kept (coinId : value) (l : loc) (w : World) (s : string) :
  read_prop "vs_currency" (object_at w l) = VStr s →
  s ≠ "" →
  (read_prop "vs_currency" (object_at (coins_markets API_VERSION HOST remote (VObj l) w).2 l) = VStr s
   ∧ sends_query_with (coins_markets API_VERSION HOST remote (VObj l)) w
       ("/api/v" +:+ API_VERSION +:+ "/coins/markets")
       ("vs_currency=" +:+ querystring.escape s))
  ∧ (is_nonempty_string coinId = true →
     read_prop "vs_currency" (object_at (coins_fetchMarketChart API_VERSION HOST remote coinId (VObj l) w).2 l) = VStr s
     ∧ sends_query_with (coins_fetchMarketChart API_VERSION HOST remote coinId (VObj l)) w
         ("/api/v" +:+ API_VERSION +:+ "/coins/" +:+ to_string coinId +:+ "/market_chart")
         ("vs_currency=" +:+ querystring.escape s)).
Proof.
  intros Hvs Hs.
  assert (Hok : is_nonempty_string (read_prop "vs_currency" (object_at w l)) = true).
  { rewrite Hvs. simpl. now apply negb_true_iff, String.eqb_neq. }
  pose proof (with_currency_kept l w Hok) as Hw.
  assert (Hm : read_prop "vs_currency" (object_at (markets_world l w) l) = VStr s)
    by (rewrite markets_world_frame, Hw by discriminate; exact Hvs).
  assert (Hc : read_prop "vs_currency" (object_at (chart_world l w) l) = VStr s)
    by (rewrite chart_world_frame, Hw by discriminate; exact Hvs).
  change ("vs_currency=" +:+ querystring.escape s)
    with (querystring.escape "vs_currency" +:+ "=" +:+ querystring.escape s).
  rewrite <- field_of_string.
  split; [split|intros Hid; split].
  - now rewrite coins_markets_run, object_after_request.
  - apply (request_sends_query_with API_VERSION HOST remote _ w "/coins/markets" _ _
             "vs_currency" (VStr s)
             (coins_markets_run API_VERSION HOST remote l w) (markets_world_sent l w));
      [|reflexivity].
    now apply (read_in _ _ _ Hm).
  - now rewrite coins_fetchMarketChart_run, object_after_request.
  - apply (request_sends_query_with API_VERSION HOST remote _ w
             ("/coins/" +:+ to_string coinId +:+ "/market_chart") _ _ "vs_currency" (VStr s)
             (coins_fetchMarketChart_run API_VERSION HOST remote coinId l w Hid)
             (chart_world_sent l w));
      [|reflexivity].
    now apply (read_in _ _ _ Hc).
Qed.

(** X8. The test for a missing [days] is [== undefined], which [null]
    passes too: [days: null] is replaced by [1] like an absent [days],
    while any other value, also [0], [false] or the empty string, is
    kept. *)
Theorem days_default_covers_null_only (coinId : value) (l : loc) (w : World) :
  is_nonempty_string coinId = true →
  read_prop "days" (object_at (coins_fetchMarketChart API_VERSION HOST remote coinId (VObj l) w).2 l)
  = match read_prop "days" (object_at w l) with
    | VUndefined | VNull => VNum 1
    | days => days
    end.
Proof.
  intros Hid. rewrite coins_fetchMarketChart_run, object_after_request by assumption.
  unfold chart_world. cbv zeta. rewrite with_currency_frame by discriminate.
  destruct (read_prop "days" (object_at w l)) eqn:Hd; cbn [eq_undefined];
    rewrite ?object_at_store, ?read_assign_same; try reflexivity;
    now rewrite with_currency_frame by discriminate.
Qed.

Lemma markets_world_settled l w :
  is_nonempty_string (read_prop "vs_currency" (object_at (markets_world l w) l)) = true
  ∧ Utils.isArray (read_prop "ids" (object_at (markets_world l w) l)) = false.
Proof.
  split.
  - rewrite markets_world_frame by discriminate.
    unfold with_currency.
    destruct (is_nonempty_string (read_prop "vs_currency" (object_at w l))) eqn:Hvs;
      [exact Hvs|].
    now rewrite object_at_store, read_assign_same.
  - unfold markets_world. cbv zeta.
    destruct (read_prop "ids" (object_at (with_currency l w) l)) eqn:Hids;
      rewrite ?Hids; try reflexivity.
    now rewrite object_at_store, read_assign_same.
Qed.

Lemma markets_world_fixed l w :
  is_nonempty_string (read_prop "vs_currency" (object_at w l)) = true →
  Utils.isArray (read_prop "ids" (object_at w l)) = false →
  markets_world l w = w.
Proof.
  intros Hvs Hids. unfold markets_world. cbv zeta.
  rewrite (with_currency_kept l w Hvs).
  now destruct (read_prop "ids" (object_at w l)).
Qed.

(** X9. Calling [coins.markets] again with the object the first call has
    filled in sends the same request again and writes nothing more: the
    defaults settle in one call. *)
Theorem markets_twice_sends_the_same (l : loc) (w : World) :
  let w1 := (coins_markets API_VERSION HOST remote (VObj l) w).2 in
  let w2 := (coins_markets API_VERSION HOST remote (VObj l) w1).2 in
  ∃ options,
    sent w2 = (sent w ++ [options; options])%list
    ∧ heap w2 = heap w1.
Proof.
  cbv zeta.
  pose proof (coins_markets_run API_VERSION HOST remote l w) as Hfirst.
  destruct (request_effect remote
              {| path := "/api/v" +:+ API_VERSION +:+ "/coins/markets" +:+ "?" +:+
                         querystring.stringify (object_at (markets_world l w) l);
                 method := "GET"; host := HOST; port := 443 |} (markets_world l w))
    as (promise & texts & Hreq).
  rewrite Hreq in Hfirst. rewrite Hfirst. cbn [snd].
  set (w1 := after_request (markets_world l w) _ texts).
  assert (Hobj : object_at w1 l = object_at (markets_world l w) l) by reflexivity.
  destruct (markets_world_settled l w) as [Hvs Hids].
  rewrite coins_markets_run, markets_world_fixed by (rewrite Hobj; assumption).
  rewrite Hobj.
  match goal with
  | |- context [_request remote ?o w1] =>
      destruct (request_effect remote o w1) as (promise' & texts' & ->); exists o
  end.
  split; [|reflexivity].
  cbn. rewrite markets_world_sent. now rewrite <- List.app_assoc.
Qed.

(** X10. The three methods that need a parameter object refuse anything
    else: [coins.markets], and with a proper [coinId] [coins.fetchHistory]
    and [coins.fetchMarketChart], reject with the invalid-parameter error
    on [params], in the state before the call. *)
Theorem params_must_be_an_object (coinId params : value) (w : World) :
  Utils.isObject params = false →
  coins_markets API_VERSION HOST remote params w = (Normal (Rejected params_error), w)
  ∧ (is_nonempty_string coinId = true →
     coins_fetchHistory API_VERSION HOST remote coinId params w = (Normal (Rejected params_error), w)
     ∧ coins_fetchMarketChart API_VERSION HOST remote coinId params w = (Normal (Rejected params_error), w)).
Proof.
  intros Hobj. split; [|intros Hid; split].
  - unfold coins_markets. rewrite async_guard, Hobj. reflexivity.
  - unfold coins_fetchHistory.
    rewrite async_guard, check_coinId_run, Hid, async_guard, Hobj. reflexivity.
  - unfold coins_fetchMarketChart.
    rewrite async_guard, check_coinId_run, Hid, async_guard, Hobj. reflexivity.
Qed.

Lemma coins_fetchHistory_run coinId l w :
  is_nonempty_string coinId = true →
  is_nonempty_string (read_prop "date" (object_at w l)) = true →
  coins_fetchHistory API_VERSION HOST remote coinId (VObj l) w
  = _request remote
      {| path := "/api/v" +:+ API_VERSION +:+
                 ("/coins/" +:+ to_string coinId +:+ "/history") +:+ "?" +:+
                 querystring.stringify (object_at w l);
         method := "GET"; host := HOST; port := 443 |} w.
Proof.
  intros Hid Hdate. unfold coins_fetchHistory.
  rewrite async_guard, check_coinId_run, Hid, async_guard.
  cbn [Utils.isObject negb when mret JS_ret].
  rewrite async_bind, get_run, async_guard, guard_condition, Hdate.
  cbn [negb when mret JS_ret].
  rewrite async_bind, build_run, async_request. reflexivity.
Qed.

(** X11. With a proper [coinId] and a [date] that is a non-empty string,
    [coins.fetchHistory] goes through: it sends one request to the history
    path of the coin, with the escaped date in the query, and writes
    nothing. *)
Theorem history_with_a_date_is_sent (coinId : value) (l : loc) (w : World) (d : string) :
  is_nonempty_string coinId = true →
  read_prop "date" (object_at w l) = VStr d →
  d ≠ "" →
  sends_query_with (coins_fetchHistory API_VERSION HOST remote coinId (VObj l)) w
    ("/api/v" +:+ API_VERSION +:+ "/coins/" +:+ to_string coinId +:+ "/history")
    ("date=" +:+ querystring.escape d)
  ∧ heap (coins_fetchHistory API_VERSION HOST remote coinId (VObj l) w).2 = heap w.
Proof.
  intros Hid Hd Hne.
  assert (Hdate : is_nonempty_string (read_prop "date" (object_at w l)) = true).
  { rewrite Hd. simpl. now apply negb_true_iff, String.eqb_neq. }
  split.
  - change ("date=" +:+ querystring.escape d)
      with (querystring.escape "date" +:+ "=" +:+ querystring.escape d).
    rewrite <- field_of_string.
    apply (request_sends_query_with API_VERSION HOST remote _ w
             ("/coins/" +:+ to_string coinId +:+ "/history") _ _ "date" (VStr d)
             (coins_fetchHistory_run coinId l w Hid Hdate) eq_refl); [|reflexivity].
    now apply (read_in _ _ _ Hd).
  - rewrite coins_fetchHistory_run by assumption.
    destruct (request_effect remote
      {| path := "/api/v" +:+ API_VERSION +:+
                 ("/coins/" +:+ to_string coinId +:+ "/history") +:+ "?" +:+
                 querystring.stringify (object_at w l);
         method := "GET"; host := HOST; port := 443 |} w) as (promise & texts & ->).
    reflexivity.
Qed.

End Defaults.

Section QueryShape.

Import querystring.

Variable API_VERSION : string.
Variable HOST : string.

Lemma all_chars_concat test sep pieces :
  all_chars test sep = true →
  Forall (λ t, all_chars test t = true) pieces →
  all_chars test (String.concat sep pieces) = true.
Proof.
  intros Hsep. induction 1 as [|t [|t' ts] Ht _ IH]; [reflexivity | exact Ht |].
  change (String.concat sep (t :: t' :: ts))
    with (t +:+ sep +:+ String.concat sep (t' :: ts)).
  now rewrite !all_chars_app, Ht, Hsep, IH.
Qed.

Lemma field_query_chars k v : all_chars query_char (field k v) = true.
Proof.
  assert (Hw : ∀ s, all_chars escaped_char s = true → all_chars query_char s = true).
  { intros s. apply all_chars_weaken. intros c Hc. unfold query_char. now rewrite Hc. }
  unfold field. rewrite !all_chars_app.
  now rewrite (Hw _ (escape_escaped k)), (Hw _ (encodeStringified_escaped v)).
Qed.

Lemma tokens_query_chars o : Forall (λ t, all_chars query_char t = true) (tokens o).
Proof.
  unfold tokens. induction o as [|[k v] o IH]; simpl; [constructor|].
  apply Forall_app. split; [|exact IH].
  unfold fields_of; simpl. destruct v; try (repeat constructor; apply field_query_chars).
  apply List.Forall_forall. intros t Ht. apply in_map_iff in Ht as (e & <- & _).
  apply field_query_chars.
Qed.

(** X12. Whatever the parameter object holds, the query string the
    builder appends is made of unreserved characters, percent signs, [=]
    and [&] only: no space, no [?], no [#], no byte outside ASCII can
    reach the path through the parameters. *)
Theorem query_has_only_safe_characters method endpoint l w :
  ∃ query,
    _buildRequestOptions API_VERSION HOST method endpoint (VObj l) w
    = (Normal {| path := "/api/v" +:+ API_VERSION +:+ endpoint +:+ "?" +:+ query;
                 method := toUpperCase method; host := HOST; port := 443 |}, w)
    ∧ all_chars query_char query = true.
Proof.
  exists (stringify (object_at w l)). split; [apply build_run|].
  rewrite stringify_tokens.
  apply all_chars_concat; [reflexivity | apply tokens_query_chars].
Qed.

Lemma unreserved_is_no_percent c : noEscape c = true → Ascii.eqb c "%" = false.
Proof. destruct c as [[] [] [] [] [] [] [] []]; try discriminate; reflexivity. Qed.

Lemma unescape_hexTable c r : unescape (hexTable c +:+ r) = String c (unescape r).
Proof. destruct c as [[] [] [] [] [] [] [] []]; reflexivity. Qed.

(** Reading back what [escape] wrote gives the string that was escaped. *)
Lemma unescape_escape s : unescape (escape s) = s.
Proof.
  induction s as [|c r IH]; [reflexivity|].
  change (escape (String c r))
    with (if noEscape c then String c (escape r) else hexTable c +:+ escape r).
  destruct (noEscape c) eqn:Hc.
  - cbn [unescape]. now rewrite (unreserved_is_no_percent c Hc), IH.
  - now rewrite unescape_hexTable, IH.
Qed.

Lemma escape_inj a b : escape a = escape b → a = b.
Proof.
  intros H. apply (f_equal unescape) in H. now rewrite !unescape_escape in H.
Qed.

Lemma escaped_free_of_eq s :
  all_chars escaped_char s = true → free_of "=" s = true.
Proof.
  apply all_chars_weaken. intros c.
  destruct c as [[] [] [] [] [] [] [] []]; now vm_compute.
Qed.

Lemma token_split a b a' b' :
  free_of "=" a = true → free_of "=" a' = true →
  a +:+ "=" +:+ b = a' +:+ "=" +:+ b' → a = a' ∧ b = b'.
Proof.
  unfold free_of. revert a'. induction a as [|c a IH]; intros [|c' a']; simpl.
  - intros _ _ [= ->]. auto.
  - rewrite andb_true_iff, negb_true_iff. intros _ [Hc _] [= <- _]. discriminate.
  - rewrite andb_true_iff, negb_true_iff. intros [Hc _] _ [= -> _]. discriminate.
  - rewrite !andb_true_iff. intros [_ Ha] [_ Ha'] [= -> H].
    destruct (IH _ Ha Ha' H) as [-> ->]. auto.
Qed.

Lemma append_cancel a x y : a +:+ x = a +:+ y → x = y.
Proof. induction a as [|c a IH]; simpl; [auto | intros [= H]; auto]. Qed.

Lemma tokens_nonempty o : Forall (λ t, t ≠ "") (tokens o).
Proof.
  unfold tokens. induction o as [|kv o IH]; simpl; [constructor|].
  apply Forall_app. split; [apply fields_of_nonempty | exact IH].
Qed.

Lemma concat_amp_inj (xs ys : list string) :
  Forall (λ t, free_of "&" t = true) xs → Forall (λ t, free_of "&" t = true) ys →
  Forall (λ t, t ≠ "") xs → Forall (λ t, t ≠ "") ys →
  String.concat "&" xs = String.concat "&" ys → xs = ys.
Proof.
  intros Hx Hy Nx Ny H.
  destruct xs as [|x xs], ys as [|y ys]; [reflexivity | | |].
  - rewrite concat_amp_cons in H. symmetry in H. apply append_is_empty in H.
    inversion Ny; subst. contradiction.
  - rewrite concat_amp_cons in H. apply append_is_empty in H.
    inversion Nx; subst. contradiction.
  - rewrite <- (split_on_concat "&" (x :: xs)) by (congruence || assumption).
    rewrite <- (split_on_concat "&" (y :: ys)) by (congruence || assumption).
    now rewrite H.
Qed.

Lemma scalar_printed_of_tokens o1 o2 :
  map (λ kv : string * value, escape kv.1 +:+ "=" +:+ escape (to_string kv.2)) o1
  = map (λ kv : string * value, escape kv.1 +:+ "=" +:+ escape (to_string kv.2)) o2 →
  printed o1 = printed o2.
Proof.
  revert o2. induction o1 as [|[k v] o1 IH]; intros [|[k' v'] o2]; simpl;
    try discriminate; [reflexivity|].
  intros [= Htok Hrest].
  apply token_split in Htok as [Hk Hv];
    try (apply escaped_free_of_eq, escape_escaped).
  apply escape_inj in Hk, Hv. unfold printed in *. simpl.
  rewrite Hk, Hv. f_equal. now apply IH.
Qed.

(** X13. The path tells the parameters apart, up to how they print: two
    mappings of strings, booleans and finite numbers (the integers up to
    2^53 - 1 in magnitude) that are built into the same path for the same
    endpoint have the same names with the same printed values, in the same
    order.  Escaping loses nothing and no value can pass for a separator;
    what the path does not tell is whether [10] was a number or a
    string. *)
Theorem path_determines_the_parameters method endpoint l1 w1 l2 w2 options1 options2 :
  Forall (λ kv, is_scalar kv.2 = true) (object_at w1 l1) →
  Forall (λ kv, is_scalar kv.2 = true) (object_at w2 l2) →
  _buildRequestOptions API_VERSION HOST method endpoint (VObj l1) w1 = (Normal options1, w1) →
  _buildRequestOptions API_VERSION HOST method endpoint (VObj l2) w2 = (Normal options2, w2) →
  path options1 = path options2 →
  printed (object_at w1 l1) = printed (object_at w2 l2).
Proof.
  intros Hs1 Hs2. rewrite !build_run. intros [= <-] [= <-] Hpath.
  assert (Hquery : stringify (object_at w1 l1) = stringify (object_at w2 l2)).
  { revert Hpath. generalize (stringify (object_at w1 l1)) (stringify (object_at w2 l2)).
    intros q1 q2 Hpath.
    change ("/api/v" +:+ API_VERSION +:+ endpoint +:+ "?" +:+ q1
            = "/api/v" +:+ API_VERSION +:+ endpoint +:+ "?" +:+ q2) in Hpath.
    now do 4 apply append_cancel in Hpath. }
  clear Hpath. rename Hquery into Hpath.
  rewrite !stringify_tokens in Hpath.
  apply concat_amp_inj in Hpath;
    try apply tokens_free; try apply tokens_nonempty.
  rewrite !tokens_scalar in Hpath by assumption.
  now apply scalar_printed_of_tokens.
Qed.

End QueryShape.

Section Settlement.

Variable remote : RequestOptions → Outcome.

Lemma concat_chunks pieces :
  Buffer_concat_toString pieces
  = Buffer_concat_toString [fold_right String.append "" pieces].
Proof.
  unfold Buffer_concat_toString. cbn [String.concat].
  induction pieces as [|a [|b pieces] IH]; [reflexivity| |].
  - cbn. now rewrite append_empty_r.
  - cbn [String.concat fold_right] in *. now rewrite IH.
Qed.

(** X14. The chunks are joined before anything is looked at: a response
    that arrives in pieces settles the promise as the response with the
    same status line whose body arrives whole, the pieces appended in
    their order.  No piece is dropped, and a marker or a JSON text cut by
    a chunk boundary is read as if it had not been cut. *)
Theorem chunking_does_not_matter (remote' : RequestOptions → Outcome)
    options w status reason pieces :
  remote options
  = Answered {| statusCode := status; statusMessage := reason; chunks := pieces |} →
  remote' options
  = Answered {| statusCode := status; statusMessage := reason;
                chunks := [fold_right String.append "" pieces] |} →
  _request remote options w = _request remote' options w.
Proof.
  intros H H'. rewrite !request_run, H, H'. cbn [statusCode statusMessage chunks].
  now rewrite (concat_chunks pieces).
Qed.

(** X15. An envelope is only ever delivered for a response whose body
    parsed: although [resolve] is called after a failed [try] block as
    well, with the text still in [body], the promise is settled by then
    and no envelope with unparsed text gets out. *)
Theorem envelope_only_for_parsed_body options w envelope w' :
  _request remote options w = (Normal (Fulfilled envelope), w') →
  ∃ res j,
    remote options = Answered res
    ∧ JSON.parse (Buffer_concat_toString (chunks res)) = Some j
    ∧ data envelope = Parsed j
    ∧ code envelope = statusCode res
    ∧ message envelope = statusMessage res.
Proof.
  rewrite request_run. destruct (remote options) as [error|res|]; try discriminate.
  cbn zeta. destruct (startsWith _ _); [discriminate|].
  destruct (JSON.parse _) as [j|] eqn:Hj; [|discriminate].
  intros [= <- _]. exists res, j. repeat split; assumption.
Qed.

(** X16. [_request] never throws.  It hands its options to the HTTPS
    stack exactly once, leaves the heap alone, and calls [JSON.parse] at
    most once, on the whole body and only when a response has come that
    is not an HTML page. *)
Theorem request_effects options w :
  ∃ promise w',
    _request remote options w = (Normal promise, w')
    ∧ sent w' = (sent w ++ [options])%list
    ∧ heap w' = heap w
    ∧ parsed w'
      = match remote options with
        | Answered res =>
            let text := Buffer_concat_toString (chunks res) in
            if startsWith text "<!DOCTYPE html>" then parsed w
            else (parsed w ++ [text])%list
        | _ => parsed w
        end.
Proof.
  rewrite request_run. destruct (remote options) as [error|res|]; cbn zeta.
  - eexists _, _. split; [reflexivity|]. cbn. now rewrite app_nil_r.
  - destruct (startsWith _ _).
    + eexists _, _. split; [reflexivity|]. cbn. now rewrite app_nil_r.
    + destruct (JSON.parse _); eexists _, _; (split; [reflexivity|]); cbn; auto.
  - eexists _, _. split; [reflexivity|]. cbn. now rewrite app_nil_r.
Qed.

End Settlement.

(** * The theorems at work *)

(** Status 200 with a small JSON object as body, arriving in two chunks. *)
Lemma ok_response_resolves :
  _request (answering ok_response) (get_request "/api/v3/ping") (holding [])
  = (Normal (Fulfilled {| success := true; message := "OK"; code := 200;
                          data := Parsed (JSON.JObject [("a", JSON.JNumber "1")]) |}),
     {| heap := {[1%positive := []]};
        sent := [get_request "/api/v3/ping"];
        parsed := ["{" +:+ JSON.quoted "a" +:+ ":1}"] |}).
Proof. reflexivity. Qed.

(** The same through an endpoint method: an unknown coin is an envelope,
    not a rejection. *)
Lemma fetch_unknown_coin_resolves :
  (coins_fetch version api_host (answering not_found_response)
     (VStr "nope") VUndefined (holding [])).1
  = Normal (Fulfilled
      {| success := false; message := "Not Found"; code := 404;
         data := Parsed (JSON.JObject [("error", JSON.JString "coin not found")]) |}).
Proof. reflexivity. Qed.

(** A transport error rejects with that error; nothing is parsed. *)
Lemma transport_error_rejects :
  _request (λ _, Failed (TransportError "ECONNRESET")) (get_request "/api/v3/ping") (holding [])
  = (Normal (Rejected (TransportError "ECONNRESET")),
     {| heap := {[1%positive := []]}; sent := [get_request "/api/v3/ping"]; parsed := [] |}).
Proof. reflexivity. Qed.

(** A 404 with a JSON body resolves, with [success] false. *)
Lemma not_found_resolves :
  ∃ envelope w',
    _request (answering not_found_response) (get_request "/api/v3/coins/nope") (holding [])
    = (Normal (Fulfilled envelope), w')
    ∧ success envelope = false
    ∧ code envelope = 404.
Proof.
  destruct (json_response_resolves (answering not_found_response)
              (get_request "/api/v3/coins/nope") (holding []) not_found_response
              (JSON.JObject [("error", JSON.JString "coin not found")])
              eq_refl eq_refl)
    as (envelope & w' & Hrun & _ & Hcode & _ & Hsuccess).
  exists envelope, w'. split; [exact Hrun|]. split; [|exact Hcode].
  destruct (success envelope); [|reflexivity].
  destruct Hsuccess as [Hrange _]. specialize (Hrange eq_refl). cbn in Hrange. lia.
Defined.

(** An HTML page rejects, and nothing is handed to [JSON.parse]. *)
Lemma html_page_rejects :
  ∃ w',
    _request (answering html_response) (get_request "/api/v3/coins/x") (holding [])
    = (Normal (Rejected invalid_request), w')
    ∧ parsed w' = [].
Proof.
  destruct (html_response_is_invalid_request (answering html_response)
              (get_request "/api/v3/coins/x") (holding []) html_response
              eq_refl eq_refl)
    as (w' & Hrun & _ & Hparsed & _).
  exists w'. split; [exact Hrun | exact Hparsed].
Defined.

(** C2, as the spec has it, fails on the methods of [onChain]: they take
    the network identifier as it comes.  With an empty identifier the
    request leaves all the same. *)
Lemma empty_network_id_is_sent :
  onChain_tokenPrice version api_host (answering ok_response)
    (VStr "") (VStr "0xabc") (holding [])
  = (Normal (Fulfilled {| success := true; message := "OK"; code := 200;
                          data := Parsed (JSON.JObject [("a", JSON.JNumber "1")]) |}),
     {| heap := {[1%positive := []]};
        sent := [get_request "/api/v3/onchain/simple/networks//token_price/0xabc"];
        parsed := ["{" +:+ JSON.quoted "a" +:+ ":1}"] |})
  ∧ is_nonempty_string (VStr "") = false.
Proof. split; reflexivity. Qed.

(** [coins.fetch] and [exchanges.fetch] with an empty identifier: the
    state after the call is the state before it. *)
Lemma empty_coin_id_is_refused :
  is_nonempty_string (VStr "") = false
  ∧ coins_fetch version api_host (answering ok_response) (VStr "") VUndefined (holding [])
    = (Normal (Rejected coinId_error), holding [])
  ∧ exchanges_fetch version api_host (answering ok_response) (VStr "") (holding [])
    = (Normal (Rejected exchangeId_error), holding []).
Proof.
  split; [reflexivity|].
  destruct (invalid_id_is_refused version api_host (answering ok_response)
              (VStr "") VUndefined (holding []) eq_refl)
    as (Hfetch & _ & _ & _ & _ & Hexchange & _).
  split; [exact Hfetch | exact Hexchange].
Defined.

(** [coins.fetchHistory] for bitcoin with [{localization: false}]. *)
Lemma history_without_date_is_refused :
  is_nonempty_string (entry (holding [("localization", VBool false)]) params "date") = false
  ∧ coins_fetchHistory version api_host (answering ok_response)
      (VStr "bitcoin") params (holding [("localization", VBool false)])
    = (Normal (Rejected date_error), holding [("localization", VBool false)]).
Proof.
  split; [reflexivity|].
  destruct (missing_date_is_refused version api_host (answering ok_response)
              (VStr "bitcoin") params (holding [("localization", VBool false)]) eq_refl)
    as (reason & Hrun & _ & Hreason).
  rewrite Hrun, (Hreason eq_refl eq_refl). reflexivity.
Defined.

(** [coins.markets] and [coins.fetchMarketChart] on [{order: ...}]. *)
Lemma markets_defaults_currency :
  sends_query_with markets (holding order_only)
    "/api/v3/coins/markets" "vs_currency=usd"
  ∧ sends_query_with bitcoin_chart (holding order_only)
      "/api/v3/coins/bitcoin/market_chart" "vs_currency=usd"
  ∧ sends_query_with bitcoin_chart (holding order_only)
      "/api/v3/coins/bitcoin/market_chart" "days=1".
Proof.
  destruct (currency_and_days_default version api_host (answering ok_response)
              (VStr "bitcoin") 1%positive (holding order_only))
    as (Hmarkets & Hchart & Hdays).
  split; [exact (Hmarkets eq_refl)|].
  split; [exact (Hchart eq_refl eq_refl) | exact (Hdays eq_refl eq_refl)].
Defined.

(** [coins.markets] with the two identifiers bitcoin and ethereum as a
    sequence. *)
Lemma markets_joins_bitcoin_ethereum :
  read_prop "ids" (object_at (holding two_ids) 1%positive)
  = VArr [VStr "bitcoin"; VStr "ethereum"]
  ∧ sends_query_with markets (holding two_ids)
      "/api/v3/coins/markets" "ids=bitcoin%2Cethereum".
Proof.
  split; [reflexivity|].
  exact (ids_sequence_is_joined version api_host (answering ok_response) 1%positive
           (holding two_ids) [VStr "bitcoin"; VStr "ethereum"] eq_refl).
Defined.

(** The whole request of that call: the joined [ids] keep their place,
    the defaulted [vs_currency] comes last. *)
Lemma markets_bitcoin_ethereum_request :
  sent (markets (holding two_ids)).2
  = [get_request "/api/v3/coins/markets?ids=bitcoin%2Cethereum&vs_currency=usd"].
Proof. reflexivity. Qed.

(** A mapping of strings, a number and a boolean; the separator and the
    assignment sign inside a value are escaped. *)
Lemma scalar_mapping_query :
  Forall (λ kv, is_scalar kv.2 = true) (object_at (holding scalars) 1%positive)
  ∧ _buildRequestOptions version api_host "get" "/coins/markets" params (holding scalars)
    = (Normal (get_request
         "/api/v3/coins/markets?vs_currency=usd&per_page=10&sparkline=false&order=market%20cap%2Fdesc%26x%3D1"),
       holding scalars)
  ∧ claimed_query (object_at (holding scalars) 1%positive)
    = "vs_currency=usd&per_page=10&sparkline=false&order=market%20cap%2Fdesc%26x%3D1".
Proof.
  assert (Hscalar : Forall (λ kv, is_scalar kv.2 = true)
                      (object_at (holding scalars) 1%positive))
    by (repeat constructor).
  destruct (query_is_the_encoded_pairs version api_host "get" "/coins/markets"
              1%positive (holding scalars)) as [Hbuild Hclaimed].
  split; [exact Hscalar|]. split; [exact Hbuild|].
  symmetry. exact (Hclaimed Hscalar).
Defined.

(** C7, as the spec has it, fails on the values that are no strings,
    finite numbers or booleans.  The array gives a pair for each of its
    elements instead of one pair with the elements joined, the empty
    array is left out although its key is in the mapping, and [null] and
    [NaN] are sent as the empty string. *)
Lemma unusual_values_are_not_encoded_pairs :
  _buildRequestOptions version api_host "GET" "/coins" params (holding unusual)
  = (Normal (get_request "/api/v3/coins?ids=bitcoin&ids=ethereum&page=&per_page="),
     holding unusual)
  ∧ claimed_query (object_at (holding unusual) 1%positive)
    = "ids=bitcoin%2Cethereum&tags=&page=null&per_page=NaN".
Proof. split; reflexivity. Qed.

(** Outside the scalar values Node has its own rules: an array value
    repeats the key for each element, an empty array leaves no token, and
    [null] serialises as empty. *)
Example other_values_in_a_query :
  querystring.stringify
    [("ids", VArr [VStr "bitcoin"; VStr "ethereum"]); ("tags", VArr []); ("page", VNull)]
  = "ids=bitcoin&ids=ethereum&page=".
Proof. reflexivity. Qed.

(** C8, as the spec has it, fails on the empty mapping: the serialised
    parameters are the empty string, which is not [undefined], so the
    question mark is appended with nothing after it. *)
Lemma empty_mapping_keeps_question_mark :
  object_at (holding []) 1%positive = []
  ∧ _buildRequestOptions version api_host "GET" "/coins" params (holding [])
    = (Normal (get_request "/api/v3/coins?"), holding []).
Proof. split; reflexivity. Qed.

(** After the calls the caller's object holds the defaults. *)
Lemma caller_sees_the_defaults :
  read_prop "vs_currency" (object_at (markets (holding two_ids)).2 1%positive)
  = VStr "usd"
  ∧ read_prop "ids" (object_at (markets (holding two_ids)).2 1%positive)
    = VStr "bitcoin,ethereum"
  ∧ read_prop "vs_currency" (object_at (bitcoin_chart (holding two_ids)).2 1%positive)
    = VStr "usd"
  ∧ read_prop "days" (object_at (bitcoin_chart (holding two_ids)).2 1%positive)
    = VNum 1.
Proof.
  destruct (defaults_are_written_to_params version api_host (answering ok_response)
              (VStr "bitcoin") 1%positive (holding two_ids))
    as (Hcurrency & Hids & Hchart & Hdays).
  split; [exact (Hcurrency eq_refl)|].
  split; [exact (Hids [VStr "bitcoin"; VStr "ethereum"] eq_refl)|].
  split; [exact (Hchart eq_refl eq_refl) | exact (Hdays eq_refl eq_refl)].
Defined.

(** A string, a number, a boolean and an array in the place of the
    parameter object. *)
Lemma non_objects_give_no_query :
  _buildRequestOptions version api_host "GET" "/coins" (VStr "vs_currency=usd") (holding [])
  = (Normal (get_request "/api/v3/coins"), holding [])
  ∧ _buildRequestOptions version api_host "GET" "/coins" (VNum 7) (holding [])
    = (Normal (get_request "/api/v3/coins"), holding [])
  ∧ _buildRequestOptions version api_host "GET" "/coins" (VBool true) (holding [])
    = (Normal (get_request "/api/v3/coins"), holding [])
  ∧ _buildRequestOptions version api_host "GET" "/coins" (VArr [VStr "bitcoin"]) (holding [])
    = (Normal (get_request "/api/v3/coins"), holding []).
Proof.
  pose proof (λ v, non_object_params_are_dropped version api_host "GET" "/coins" v (holding []))
    as Hdropped.
  split; [exact (Hdropped (VStr "vs_currency=usd") eq_refl)|].
  split; [exact (Hdropped (VNum 7) eq_refl)|].
  split; [exact (Hdropped (VBool true) eq_refl)|].
  exact (Hdropped (VArr [VStr "bitcoin"]) eq_refl).
Defined.

(** ** The further properties at work *)

(** [coins.fetch] with an empty identifier has sent nothing, so it has
    changed nothing. *)
Lemma refused_fetch_changes_nothing :
  (invoke version api_host (answering ok_response)
     (CoinsFetch (VStr "") VUndefined) (holding order_only)).2
  = holding order_only
  ∧ ∃ e, (invoke version api_host (answering ok_response)
            (CoinsFetch (VStr "") VUndefined) (holding order_only)).1
         = Normal (Rejected e)
         ∧ is_parameter_error e = true.
Proof.
  exact (call_without_request_changes_nothing version api_host (answering ok_response)
           (CoinsFetch (VStr "") VUndefined) (holding order_only) eq_refl).
Defined.

(** [exchanges.fetchTickers] answered with a 404 and a JSON body. *)
Lemma unknown_exchange_resolves :
  (invoke version api_host (answering not_found_response)
     (ExchangesFetchTickers (VStr "nope") VUndefined) (holding [])).1
  = Normal (Fulfilled
      {| success := false; message := "Not Found"; code := 404;
         data := Parsed (JSON.JObject [("error", JSON.JString "coin not found")]) |}).
Proof.
  exact (call_resolves_on_json version api_host (answering not_found_response)
           (ExchangesFetchTickers (VStr "nope") VUndefined) (holding [])
           (get_request "/api/v3/exchanges/nope/tickers") not_found_response
           (JSON.JObject [("error", JSON.JString "coin not found")])
           eq_refl eq_refl eq_refl).
Defined.

(** [ping] answered with an HTML page. *)
Lemma ping_answered_with_a_page_rejects :
  (invoke version api_host (answering html_response) Ping (holding [])).1
  = Normal (Rejected invalid_request).
Proof.
  exact (call_rejects_otherwise version api_host (answering html_response)
           Ping (holding []) (get_request "/api/v3/ping") eq_refl eq_refl).
Defined.

(** [coins.markets] on the first of two objects leaves the second alone. *)
Lemma markets_leaves_the_other_object :
  heap (invoke version api_host (answering ok_response)
          (CoinsMarkets params) (holding_two two_ids order_only)).2 !! 2%positive
  = heap (holding_two two_ids order_only) !! 2%positive.
Proof.
  apply (call_writes_only_its_params version api_host (answering ok_response)
           (CoinsMarkets params) (holding_two two_ids order_only) 2%positive).
  discriminate.
Defined.

(** The caller's [order] survives both methods. *)
Lemma order_is_left_alone :
  read_prop "order" (object_at (markets (holding order_only)).2 1%positive)
  = VStr "market_cap_desc"
  ∧ read_prop "order" (object_at (bitcoin_chart (holding order_only)).2 1%positive)
    = VStr "market_cap_desc".
Proof.
  assert (Hk : "order" ≠ "vs_currency") by discriminate.
  destruct (defaults_touch_only_their_keys version api_host (answering ok_response)
              (VStr "bitcoin") 1%positive (holding order_only) "order" Hk)
    as [Hmarkets Hchart].
  split; [apply Hmarkets | apply Hchart]; discriminate.
Defined.

(** A caller who asks for euros gets euros. *)
Lemma euros_are_kept :
  sends_query_with markets (holding euro) "/api/v3/coins/markets" "vs_currency=eur"
  ∧ sends_query_with bitcoin_chart (holding euro)
      "/api/v3/coins/bitcoin/market_chart" "vs_currency=eur".
Proof.
  assert (Hs : "eur" ≠ "") by discriminate.
  destruct (given_currency_is_kept version api_host (answering ok_response)
              (VStr "bitcoin") 1%positive (holding euro) "eur" eq_refl Hs)
    as [[_ Hmarkets] Hchart].
  split; [exact Hmarkets | exact (proj2 (Hchart eq_refl))].
Defined.

(** [days: null] becomes [1]; [days: "max"] stays. *)
Lemma null_days_become_one :
  read_prop "days" (object_at (bitcoin_chart (holding null_days)).2 1%positive) = VNum 1
  ∧ read_prop "days" (object_at (bitcoin_chart (holding euro)).2 1%positive) = VStr "max".
Proof.
  split.
  - exact (days_default_covers_null_only version api_host (answering ok_response)
             (VStr "bitcoin") 1%positive (holding null_days) eq_refl).
  - exact (days_default_covers_null_only version api_host (answering ok_response)
             (VStr "bitcoin") 1%positive (holding euro) eq_refl).
Defined.

(** A string in the place of the parameter object. *)
Lemma string_params_are_refused :
  coins_markets version api_host (answering ok_response) (VStr "usd") (holding [])
  = (Normal (Rejected params_error), holding [])
  ∧ coins_fetchHistory version api_host (answering ok_response)
      (VStr "bitcoin") (VStr "usd") (holding [])
    = (Normal (Rejected params_error), holding [])
  ∧ coins_fetchMarketChart version api_host (answering ok_response)
      (VStr "bitcoin") (VStr "usd") (holding [])
    = (Normal (Rejected params_error), holding []).
Proof.
  destruct (params_must_be_an_object version api_host (answering ok_response)
              (VStr "bitcoin") (VStr "usd") (holding []) eq_refl)
    as [Hmarkets Hrest].
  split; [exact Hmarkets | exact (Hrest eq_refl)].
Defined.

(** [coins.fetchHistory] for bitcoin on 30-12-2017. *)
Lemma history_of_bitcoin_is_sent :
  sends_query_with
    (coins_fetchHistory version api_host (answering ok_response) (VStr "bitcoin") params)
    (holding dated) "/api/v3/coins/bitcoin/history" "date=30-12-2017"
  ∧ heap (coins_fetchHistory version api_host (answering ok_response)
            (VStr "bitcoin") params (holding dated)).2
    = heap (holding dated).
Proof.
  assert (Hd : "30-12-2017" ≠ "") by discriminate.
  exact (history_with_a_date_is_sent version api_host (answering ok_response)
           (VStr "bitcoin") 1%positive (holding dated) "30-12-2017" eq_refl eq_refl Hd).
Defined.

(** A number and a boolean are built into the same path as their printed
    text: the two mappings differ, what they print does not. *)
Lemma same_path_same_parameters :
  printed (object_at (holding_two scalars scalars_as_text) 1%positive)
  = printed (object_at (holding_two scalars scalars_as_text) 2%positive)
  ∧ object_at (holding_two scalars scalars_as_text) 1%positive
    ≠ object_at (holding_two scalars scalars_as_text) 2%positive.
Proof.
  assert (Hscalar : Forall (λ kv : string * value, is_scalar kv.2 = true) scalars)
    by (repeat constructor).
  assert (Htext : Forall (λ kv : string * value, is_scalar kv.2 = true) scalars_as_text)
    by (repeat constructor).
  split; [|discriminate].
  exact (path_determines_the_parameters version api_host "GET" "/coins/markets"
           1%positive (holding_two scalars scalars_as_text)
           2%positive (holding_two scalars scalars_as_text)
           _ _ Hscalar Htext eq_refl eq_refl eq_refl).
Defined.

(** The page with its marker cut in two, and the page in one piece: both
    reject with the invalid-request error. *)
Lemma page_in_two_chunks_or_one :
  _request (answering html_marker_split) (get_request "/api/v3/ping") (holding [])
  = _request (answering html_in_one_chunk) (get_request "/api/v3/ping") (holding [])
  ∧ (_request (answering html_in_one_chunk) (get_request "/api/v3/ping") (holding [])).1
    = Normal (Rejected invalid_request).
Proof.
  split; [|reflexivity].
  exact (chunking_does_not_matter (answering html_marker_split)
           (answering html_in_one_chunk)
           (get_request "/api/v3/ping") (holding []) 403 "Forbidden"
           (chunks html_marker_split) eq_refl eq_refl).
Defined.

(** The envelope of the small JSON object came from a parsed body. *)
Lemma ok_envelope_was_parsed :
  ∃ res j,
    answering ok_response (get_request "/api/v3/ping") = Answered res
    ∧ JSON.parse (Buffer_concat_toString (chunks res)) = Some j
    ∧ Parsed (JSON.JObject [("a", JSON.JNumber "1")]) = Parsed j
    ∧ 200 = statusCode res
    ∧ "OK" = statusMessage res.
Proof.
  exact (envelope_only_for_parsed_body (answering ok_response)
           (get_request "/api/v3/ping") (holding [])
           {| success := true; message := "OK"; code := 200;
              data := Parsed (JSON.JObject [("a", JSON.JNumber "1")]) |}
           _ eq_refl).
Defined.
